(** * Linux Reality Check: the measurement substrate, embedded and verified

    A shallow embedding of the C sources of the measurement core
    (cpu_spin.c, memory_random.c, perf_counters.c, metrics.c,
    numa_utils.c and the numa_locality scenario), with the properties
    the design document states about them.

    Conventions.
    - A [uint64_t] is a [Z] in [0, 2^64); every arithmetic operation
      writes its reduction modulo 2^64 out ([wrap64]).
    - A [size_t] used as an array position is a [nat]; arrays are lists
      read with stdpp's lookup and updated with its insert.
    - Calls into the kernel or the C library (clock_gettime, fopen,
      perf_event_open, read, rand, malloc) take their replies from an
      explicit environment argument, and the calls a function issues are
      returned as an explicit trace where a property speaks about them. *)

From Stdlib Require Import ZArith Ascii String SpecFloat.
From stdpp Require Import base tactics option list numbers.

Local Open Scope Z_scope.

(** ** Machine integers *)

Definition two64 : Z := 2 ^ 64.

Definition wrap64 (x : Z) : Z := x mod two64.

Definition UINT64_MAX : Z := two64 - 1.

Definition INT_MAX : Z := 2 ^ 31 - 1.

(** ** cpu_spin.c *)

Module CpuSpin.

(** The body shared by both loops:
    [result += i; result ^= (i << 1); result *= 3;] on uint64_t. *)
Definition spin_body (i result : Z) : Z :=
  let r1 := wrap64 (result + i) in
  let r2 := Z.lxor r1 (wrap64 (Z.shiftl i 1)) in
  wrap64 (r2 * 3).

(** [for (uint64_t i = start; i < start + todo; i++) body], with the
    number of remaining rounds as the structural argument. *)
Fixpoint spin_loop (todo : nat) (i result : Z) : Z :=
  match todo with
  | O => result
  | S todo' => spin_loop todo' (i + 1) (spin_body i result)
  end.

Definition cpu_spin (iterations : Z) : Z :=
  spin_loop (Z.to_nat iterations) 0 0.

(** The outer [for (uint32_t phase = 0; phase < phases; phase++)] loop,
    threading [result] through every phase. *)
Fixpoint phase_loop (phases : nat) (iterations : Z) (result : Z) : Z :=
  match phases with
  | O => result
  | S phases' =>
      phase_loop phases' iterations
        (spin_loop (Z.to_nat iterations) 0 result)
  end.

Definition cpu_spin_long (iterations : Z) (phases : Z) : Z :=
  phase_loop (Z.to_nat phases) iterations 0.

End CpuSpin.

(** ** The C library routines the readers rely on *)

Module CLib.

(** [isspace] in the C locale. *)
Definition isspace (c : ascii) : bool :=
  match nat_of_ascii c with
  | 32%nat | 9%nat | 10%nat | 11%nat | 12%nat | 13%nat => true
  | _ => false
  end.

Definition digit_of (c : ascii) : option Z :=
  let n := Z.of_nat (nat_of_ascii c) in
  if (48 <=? n) && (n <=? 57) then Some (n - 48) else None.

Definition isdigit (c : ascii) : bool :=
  match digit_of c with Some _ => true | None => false end.

(** The character under the pointer; [None] is the terminating NUL. *)
Definition peek (s : string) : option ascii :=
  match s with
  | EmptyString => None
  | String c _ => Some c
  end.

(** [p + n], never moving past the terminating NUL. *)
Fixpoint advance (n : nat) (s : string) : string :=
  match n, s with
  | O, _ => s
  | S _, EmptyString => EmptyString
  | S n', String _ s' => advance n' s'
  end.

(** [strncmp(a, b, n) == 0]. *)
Fixpoint strncmp_eq (a b : string) (n : nat) : bool :=
  match n with
  | O => true
  | S n' =>
      match a, b with
      | EmptyString, EmptyString => true
      | String x a', String y b' =>
          if Ascii.eqb x y then strncmp_eq a' b' n' else false
      | _, _ => false
      end
  end.

Fixpoint skip_space (s : string) : string :=
  match s with
  | String c s' => if isspace c then skip_space s' else s
  | EmptyString => s
  end.

(** The run of decimal digits at the head of [s], accumulated from the
    left as the library does ([acc * 10 + digit]), and what follows. *)
Fixpoint scan_digits (s : string) (acc : Z) : Z * string :=
  match s with
  | String c s' =>
      match digit_of c with
      | Some d => scan_digits s' (acc * 10 + d)
      | None => (acc, s)
      end
  | EmptyString => (acc, s)
  end.

(** An optional sign: [true] for a minus. *)
Definition scan_sign (s : string) : bool * string :=
  match s with
  | String "-"%char s' => (true, s')
  | String "+"%char s' => (false, s')
  | _ => (false, s)
  end.

(** The subject sequence of an integer conversion: white space, an
    optional sign, at least one digit.  Yields the sign, the magnitude
    and the rest of the input; [None] is a matching failure. *)
Definition scan_integer (s : string) : option (bool * Z * string) :=
  let '(neg, s1) := scan_sign (skip_space s) in
  match peek s1 with
  | Some c =>
      if isdigit c then
        let '(v, rest) := scan_digits s1 0 in Some (neg, v, rest)
      else None
  | None => None
  end.

(** Conversion to [unsigned long]: a magnitude beyond ULONG_MAX yields
    ULONG_MAX; otherwise a minus sign negates in the unsigned type. *)
Definition to_ulong (neg : bool) (v : Z) : Z :=
  if UINT64_MAX <? v then UINT64_MAX
  else if neg then wrap64 (- v) else v.

(** Conversion to [int].  The C standard leaves a value outside the
    range of [int] undefined; the model keeps the mathematical value
    and the theorems about it assume the range. *)
Definition to_int (neg : bool) (v : Z) : Z :=
  if neg then - v else v.

(** [strtoul(p, &p, 10)]: value and end pointer; with no digits the
    value is 0 and the end pointer is [p] itself. *)
Definition strtoul (s : string) : Z * string :=
  match scan_integer s with
  | Some (neg, v, rest) => (to_ulong neg v, rest)
  | None => (0, s)
  end.

(** [sscanf(s, "%lu", &x)]: [Some] is one conversion stored,
    [None] is none (the target keeps its old content). *)
Definition sscanf_lu (s : string) : option Z :=
  match scan_integer s with
  | Some (neg, v, _) => Some (to_ulong neg v)
  | None => None
  end.

(** [sscanf(s, "%d", &a)]. *)
Definition sscanf_d (s : string) : option Z :=
  match scan_integer s with
  | Some (neg, v, _) => Some (to_int neg v)
  | None => None
  end.

(** What [sscanf(s, "%d-%d", &a, &b)] stored: nothing, [a] only, or
    both.  Its return value is the number of stored conversions. *)
Inductive scanned2 : Type :=
  | Stored0
  | Stored1 (a : Z)
  | Stored2 (a b : Z).

Definition sscanf_d_dash_d (s : string) : scanned2 :=
  match scan_integer s with
  | None => Stored0
  | Some (neg, v, rest) =>
      let a := to_int neg v in
      match rest with
      | String "-"%char rest' =>
          match scan_integer rest' with
          | Some (neg', v', _) => Stored2 a (to_int neg' v')
          | None => Stored1 a
          end
      | _ => Stored1 a
      end
  end.

Definition stored_count (r : scanned2) : Z :=
  match r with
  | Stored0 => 0
  | Stored1 _ => 1
  | Stored2 _ _ => 2
  end.

End CLib.

(** A pseudo-file as the readers see it: [None] when [fopen] fails,
    otherwise the strings successive [fgets] calls return before the
    end of file. *)
Definition pseudo_file : Type := option (list string).

(** ** metrics.c *)

Module Metrics.
Import CLib.

Record workload_metrics_t : Type := {
  timestamp_ns : Z;
  runtime_ns : Z;
  voluntary_ctxt_switches : Z;
  nonvoluntary_ctxt_switches : Z;
  minor_page_faults : Z;
  major_page_faults : Z;
  start_cpu : Z;
  end_cpu : Z
}.

Record timespec : Type := { tv_sec : Z; tv_nsec : Z }.

(** One call of [clock_gettime(CLOCK_MONOTONIC_RAW, &ts)]: its return
    value and the content of [ts] after the call.  When the call fails
    the kernel writes nothing, and [clock_ts] is whatever the stack slot
    held. *)
Record clock_reply : Type := { clock_rc : Z; clock_ts : timespec }.

(** [(uint64_t)ts.tv_sec * 1000000000ULL + ts.tv_nsec]; the return
    value of [clock_gettime] is not looked at. *)
Definition get_timestamp_ns (c : clock_reply) : Z :=
  let ts := clock_ts c in
  wrap64 (wrap64 (wrap64 (tv_sec ts) * 1000000000) + wrap64 (tv_nsec ts)).

(** How a call of a C function ends: it returns a value to its caller,
    or it ends the process ([exit], [abort]). *)
Inductive outcome (A : Type) : Type :=
  | Returns (v : A)
  | Aborts (status : Z).
Arguments Returns {A} v.
Arguments Aborts {A} status.

(** A call of the timing primitive.  Its body holds no [exit], [abort]
    or error return: control always reaches the [return]. *)
Definition call_get_timestamp_ns (c : clock_reply) : outcome Z :=
  Returns (get_timestamp_ns c).

(** One [fgets] line of /proc/self/status against the two labels;
    [vn] is the current content of [*voluntary] and [*nonvoluntary]. *)
Definition ctxt_line (line : string) (vn : Z * Z) : Z * Z :=
  if strncmp_eq line "voluntary_ctxt_switches:"%string 24 then
    match sscanf_lu (advance 24 line) with
    | Some v => (v, snd vn)
    | None => vn
    end
  else if strncmp_eq line "nonvoluntary_ctxt_switches:"%string 27 then
    match sscanf_lu (advance 27 line) with
    | Some v => (fst vn, v)
    | None => vn
    end
  else vn.

(** [read_ctxt_switches(&voluntary, &nonvoluntary)]: the two targets
    come in with their current content and are written only on the
    fopen failure path and by a matching line. *)
Definition read_ctxt_switches (f : pseudo_file) (vn : Z * Z) : Z * Z :=
  match f with
  | None => (0, 0)
  | Some lines => fold_left (fun acc line => ctxt_line line acc) lines vn
  end.

(** The inner [while] of the field skipper: move [p] forward until it
    points at a blank or at the terminating NUL. *)
Fixpoint skip_to_space (s : string) : string :=
  match s with
  | String c s' => if Ascii.eqb c " "%char then s else skip_to_space s'
  | EmptyString => s
  end.

(** Step over one character unless [p] is at the terminating NUL. *)
Definition step_over (s : string) : string :=
  match s with
  | String _ s' => s'
  | EmptyString => s
  end.

(** The field skipper: at most [todo] rounds, each skipping a field and
    the blank after it, stopping early at the terminating NUL. *)
Fixpoint skip_fields (todo : nat) (s : string) : string :=
  match todo with
  | O => s
  | S todo' =>
      match s with
      | EmptyString => s
      | String _ _ => skip_fields todo' (step_over (skip_to_space s))
      end
  end.

(** The parse of the stat line: [(minflt, majflt)]. *)
Definition parse_stat (buf : string) : Z * Z :=
  let p := skip_fields 9 buf in
  match p with
  | EmptyString => (0, 0)
  | String _ _ =>
      let '(minflt, p1) := strtoul p in
      let p2 := step_over p1 in
      let p3 := step_over (skip_to_space p2) in
      (minflt, fst (strtoul p3))
  end.

Definition read_page_faults (f : pseudo_file) : Z * Z :=
  match f with
  | None => (0, 0)
  | Some [] => (0, 0)
  | Some (buf :: _) => parse_stat buf
  end.

(** What the kernel answers during one snapshot. *)
Record sample_env : Type := {
  env_clock : clock_reply;
  env_status : pseudo_file;
  env_stat : pseudo_file;
  env_cpu : Z
}.

Definition metrics_zero : workload_metrics_t :=
  {| timestamp_ns := 0; runtime_ns := 0;
     voluntary_ctxt_switches := 0; nonvoluntary_ctxt_switches := 0;
     minor_page_faults := 0; major_page_faults := 0;
     start_cpu := 0; end_cpu := 0 |}.

(** [metrics_init(m)]: the record is cleared, then filled. *)
Definition metrics_init (e : sample_env) (m : workload_metrics_t)
  : workload_metrics_t :=
  let m0 := metrics_zero in
  let ts := get_timestamp_ns (env_clock e) in
  let '(vol, nonvol) :=
    read_ctxt_switches (env_status e)
      (voluntary_ctxt_switches m0, nonvoluntary_ctxt_switches m0) in
  let '(minor, major) := read_page_faults (env_stat e) in
  {| timestamp_ns := ts;
     runtime_ns := runtime_ns m0;
     voluntary_ctxt_switches := vol;
     nonvoluntary_ctxt_switches := nonvol;
     minor_page_faults := minor;
     major_page_faults := major;
     start_cpu := env_cpu e;
     end_cpu := end_cpu m0 |}.

(** [metrics_finish(m)].  [locals] is the indeterminate content of the
    uninitialised locals [vol_ctxt] and [nonvol_ctxt] at entry. *)
Definition metrics_finish (e : sample_env) (locals : Z * Z)
    (m : workload_metrics_t) : workload_metrics_t :=
  let end_ts := get_timestamp_ns (env_clock e) in
  let '(vol_ctxt, nonvol_ctxt) := read_ctxt_switches (env_status e) locals in
  let '(minor_pf, major_pf) := read_page_faults (env_stat e) in
  {| timestamp_ns := end_ts;
     runtime_ns := wrap64 (end_ts - timestamp_ns m);
     voluntary_ctxt_switches := wrap64 (vol_ctxt - voluntary_ctxt_switches m);
     nonvoluntary_ctxt_switches :=
       wrap64 (nonvol_ctxt - nonvoluntary_ctxt_switches m);
     minor_page_faults := wrap64 (minor_pf - minor_page_faults m);
     major_page_faults := wrap64 (major_pf - major_page_faults m);
     start_cpu := start_cpu m;
     end_cpu := env_cpu e |}.

(** [metrics_print_csv]: the values of the eight columns, in the order
    of the format string. *)
Definition metrics_print_csv (m : workload_metrics_t) : list Z :=
  [ timestamp_ns m; runtime_ns m;
    voluntary_ctxt_switches m; nonvoluntary_ctxt_switches m;
    minor_page_faults m; major_page_faults m;
    start_cpu m; end_cpu m ].

(** One measured iteration as the scenarios write it:
    [metrics_init; workload; metrics_finish; metrics_print_csv]. *)
Definition emitted_record (begin_env end_env : sample_env)
    (locals : Z * Z) (m : workload_metrics_t) : workload_metrics_t :=
  metrics_finish end_env locals (metrics_init begin_env m).

End Metrics.

(** ** perf_counters.c *)

Module Perf.

(** The fixed panel, in the order the source handles it. *)
Inductive hw_event : Type :=
  | Instructions
  | Cycles
  | L1DcacheMisses
  | LlcMisses
  | Branches
  | BranchMisses.

Definition all_events : list hw_event :=
  [Instructions; Cycles; L1DcacheMisses; LlcMisses; Branches; BranchMisses].

Record perf_counters_t : Type := {
  fd_instructions : Z;
  fd_cycles : Z;
  fd_l1_dcache_misses : Z;
  fd_llc_misses : Z;
  fd_branches : Z;
  fd_branch_misses : Z;

  instructions_start : Z;
  cycles_start : Z;
  l1_misses_start : Z;
  llc_misses_start : Z;
  branches_start : Z;
  branch_misses_start : Z;

  instructions : Z;
  cycles : Z;
  l1_dcache_misses : Z;
  llc_misses : Z;
  branches : Z;
  branch_misses : Z
}.

(** Constants of linux/perf_event.h, a kernel header outside the
    repository. *)
Definition PERF_TYPE_HARDWARE : Z := 0.
Definition PERF_TYPE_HW_CACHE : Z := 3.
Definition PERF_COUNT_HW_CPU_CYCLES : Z := 0.
Definition PERF_COUNT_HW_INSTRUCTIONS : Z := 1.
Definition PERF_COUNT_HW_CACHE_MISSES : Z := 3.
Definition PERF_COUNT_HW_BRANCH_INSTRUCTIONS : Z := 4.
Definition PERF_COUNT_HW_BRANCH_MISSES : Z := 5.
Definition PERF_COUNT_HW_CACHE_L1D : Z := 0.
Definition PERF_COUNT_HW_CACHE_OP_READ : Z := 0.
Definition PERF_COUNT_HW_CACHE_RESULT_MISS : Z := 1.

Inductive ioctl_request : Type :=
  | PERF_EVENT_IOC_ENABLE
  | PERF_EVENT_IOC_DISABLE
  | PERF_EVENT_IOC_RESET.

(** The system calls the group issues on its descriptors. *)
Inductive syscall : Type :=
  | Ioctl (fd : Z) (request : ioctl_request)
  | Read (fd : Z) (count : Z)
  | Close (fd : Z).

(** The kernel's answer to [read(fd, buf, 8)]: the return value and the
    eight bytes a full read delivers, as a uint64_t. *)
Record read_reply : Type := { rd_ret : Z; rd_data : Z }.

(** [(type, config)] of each event as [perf_counters_init] passes them
    to [open_counter]. *)
Definition event_attr (e : hw_event) : Z * Z :=
  match e with
  | Instructions => (PERF_TYPE_HARDWARE, PERF_COUNT_HW_INSTRUCTIONS)
  | Cycles => (PERF_TYPE_HARDWARE, PERF_COUNT_HW_CPU_CYCLES)
  | L1DcacheMisses =>
      (PERF_TYPE_HW_CACHE,
       Z.lor (Z.lor PERF_COUNT_HW_CACHE_L1D
                (Z.shiftl PERF_COUNT_HW_CACHE_OP_READ 8))
         (Z.shiftl PERF_COUNT_HW_CACHE_RESULT_MISS 16))
  | LlcMisses => (PERF_TYPE_HARDWARE, PERF_COUNT_HW_CACHE_MISSES)
  | Branches => (PERF_TYPE_HARDWARE, PERF_COUNT_HW_BRANCH_INSTRUCTIONS)
  | BranchMisses => (PERF_TYPE_HARDWARE, PERF_COUNT_HW_BRANCH_MISSES)
  end.

Definition fd_of (e : hw_event) (pc : perf_counters_t) : Z :=
  match e with
  | Instructions => fd_instructions pc
  | Cycles => fd_cycles pc
  | L1DcacheMisses => fd_l1_dcache_misses pc
  | LlcMisses => fd_llc_misses pc
  | Branches => fd_branches pc
  | BranchMisses => fd_branch_misses pc
  end.

(** The reported count of an event (the third block of the record). *)
Definition value_of (e : hw_event) (pc : perf_counters_t) : Z :=
  match e with
  | Instructions => instructions pc
  | Cycles => cycles pc
  | L1DcacheMisses => l1_dcache_misses pc
  | LlcMisses => llc_misses pc
  | Branches => branches pc
  | BranchMisses => branch_misses pc
  end.

(** An event is live when its descriptor passed the [fd >= 0] guard. *)
Definition live (pc : perf_counters_t) (e : hw_event) : bool :=
  0 <=? fd_of e pc.

(** A call that issues no system call and leaves the record as it was. *)
Definition is_noop (before : perf_counters_t)
    (after : perf_counters_t * list syscall) : Prop :=
  after = (before, []).

(** A read, if the call is one, asks for exactly 8 bytes. *)
Definition reads_eight (c : syscall) : Prop :=
  match c with
  | Read _ n => n = 8
  | _ => True
  end.

Section Kernel.

(** [sys_open type config]: what [perf_event_open] returns for an event
    opened by [open_counter] (a descriptor, or -1).
    [sys_read fd]: what [read(fd, ., 8)] delivers. *)
Variable sys_open : Z -> Z -> Z.
Variable sys_read : Z -> read_reply.

Definition open_counter (type config : Z) : Z := sys_open type config.

(** [perf_counters_init]: return value and the record it leaves. *)
Definition perf_counters_init : Z * perf_counters_t :=
  let opened e := open_counter (fst (event_attr e)) (snd (event_attr e)) in
  let pc :=
    {| fd_instructions := opened Instructions;
       fd_cycles := opened Cycles;
       fd_l1_dcache_misses := opened L1DcacheMisses;
       fd_llc_misses := opened LlcMisses;
       fd_branches := opened Branches;
       fd_branch_misses := opened BranchMisses;
       instructions_start := 0; cycles_start := 0; l1_misses_start := 0;
       llc_misses_start := 0; branches_start := 0;
       branch_misses_start := 0;
       instructions := 0; cycles := 0; l1_dcache_misses := 0;
       llc_misses := 0; branches := 0; branch_misses := 0 |} in
  if (fd_instructions pc <? 0) || (fd_cycles pc <? 0) then (-1, pc)
  else (0, pc).

(** One guarded block of [perf_counters_start]. *)
Definition start_one (fd : Z) : list syscall :=
  if 0 <=? fd then
    [Ioctl fd PERF_EVENT_IOC_RESET; Ioctl fd PERF_EVENT_IOC_ENABLE]
  else [].

(** [perf_counters_start]: the record is not written; the result is the
    sequence of system calls issued. *)
Definition perf_counters_start (pc : perf_counters_t) : list syscall :=
  start_one (fd_instructions pc) ++
  start_one (fd_cycles pc) ++
  start_one (fd_l1_dcache_misses pc) ++
  start_one (fd_llc_misses pc) ++
  start_one (fd_branches pc) ++
  start_one (fd_branch_misses pc).

(** One guarded block of [perf_counters_stop]: the new content of the
    field and the system calls issued.  A short or failed read may have
    overwritten part of the field; the assignment of 0 that follows
    makes that content irrelevant. *)
Definition stop_one (fd : Z) (old : Z) : Z * list syscall :=
  if 0 <=? fd then
    let r := sys_read fd in
    (if rd_ret r =? 8 then rd_data r else 0,
     [Ioctl fd PERF_EVENT_IOC_DISABLE; Read fd 8])
  else (old, []).

Definition perf_counters_stop (pc : perf_counters_t)
  : perf_counters_t * list syscall :=
  let '(v1, t1) := stop_one (fd_instructions pc) (instructions pc) in
  let '(v2, t2) := stop_one (fd_cycles pc) (cycles pc) in
  let '(v3, t3) := stop_one (fd_l1_dcache_misses pc) (l1_dcache_misses pc) in
  let '(v4, t4) := stop_one (fd_llc_misses pc) (llc_misses pc) in
  let '(v5, t5) := stop_one (fd_branches pc) (branches pc) in
  let '(v6, t6) := stop_one (fd_branch_misses pc) (branch_misses pc) in
  ({| fd_instructions := fd_instructions pc;
      fd_cycles := fd_cycles pc;
      fd_l1_dcache_misses := fd_l1_dcache_misses pc;
      fd_llc_misses := fd_llc_misses pc;
      fd_branches := fd_branches pc;
      fd_branch_misses := fd_branch_misses pc;
      instructions_start := instructions_start pc;
      cycles_start := cycles_start pc;
      l1_misses_start := l1_misses_start pc;
      llc_misses_start := llc_misses_start pc;
      branches_start := branches_start pc;
      branch_misses_start := branch_misses_start pc;
      instructions := v1; cycles := v2; l1_dcache_misses := v3;
      llc_misses := v4; branches := v5; branch_misses := v6 |},
   t1 ++ t2 ++ t3 ++ t4 ++ t5 ++ t6).

End Kernel.

(** *** Derived columns of [perf_counters_print_csv]

    A [double] is an IEEE 754 binary64 value: [spec_float] at precision
    53 and maximal exponent 1024, rounding to nearest even. *)

Definition double : Type := spec_float.

Definition double_zero : double := S754_zero false.

(** [(double)x] for a uint64_t [x]. *)
Definition double_of_u64 (x : Z) : double := binary_normalize 53 1024 x 0 false.

Definition double_div (x y : double) : double := SFdiv 53 1024 x y.

(** [pc->cycles > 0 ? (double)pc->instructions / pc->cycles : 0.0];
    the uint64_t divisor is converted to double by the usual arithmetic
    conversions. *)
Definition ipc (pc : perf_counters_t) : double :=
  if 0 <? cycles pc then
    double_div (double_of_u64 (instructions pc)) (double_of_u64 (cycles pc))
  else double_zero.

Definition branch_miss_rate (pc : perf_counters_t) : double :=
  if 0 <? branches pc then
    double_div (double_of_u64 (branch_misses pc)) (double_of_u64 (branches pc))
  else double_zero.

(** The record's invariant: every count is a uint64_t. *)
Definition counts_in_range (pc : perf_counters_t) : Prop :=
  Forall (fun e => 0 <= value_of e pc < two64) all_events.

End Perf.

(** ** numa_utils.c: the CPU list of a node *)

Module Numa.
Import CLib.

(** [for (int i = start; i <= end && i < 64; i++) mask |= (1ULL << i);]
    The loop runs at most [64 - start] rounds, which is the fuel
    [numa_node_to_cpus] gives it.  A negative [i] makes the shift
    undefined in C; the kernel never writes one into a cpulist. *)
Fixpoint range_loop (fuel : nat) (i e : Z) (mask : Z) : Z :=
  match fuel with
  | O => mask
  | S fuel' =>
      if (i <=? e) && (i <? 64) then
        range_loop fuel' (i + 1) e (Z.lor mask (wrap64 (Z.shiftl 1 i)))
      else mask
  end.

(** [numa_node_to_cpus(node)], given the node's cpulist file. *)
Definition numa_node_to_cpus (cpulist : pseudo_file) : Z :=
  match cpulist with
  | None => 0
  | Some [] => 0
  | Some (buffer :: _) =>
      match sscanf_d_dash_d buffer with
      | Stored2 start e => range_loop (Z.to_nat (64 - start)) start e 0
      | _ =>
          match sscanf_d buffer with
          | Some start =>
              if start <? 64 then Z.lor 0 (wrap64 (Z.shiftl 1 start)) else 0
          | None => 0
          end
      end
  end.

(** *** The format of a cpulist, for stating what the parser should do

    A cpulist is a comma-separated list of entries, each a singleton
    ["A"] or a range ["A-B"]. *)

Inductive cpu_entry : Type :=
  | Single (a : string)
  | Range (a b : string).

(** Value of a string of decimal digits, by positional weight. *)
Fixpoint decimal_value (s : string) : Z :=
  match s with
  | EmptyString => 0
  | String c s' =>
      default 0 (digit_of c) * 10 ^ Z.of_nat (String.length s')
      + decimal_value s'
  end.

Fixpoint all_digits (s : string) : bool :=
  match s with
  | EmptyString => true
  | String c s' => isdigit c && all_digits s'
  end.

(** A number as the kernel prints it: a non-empty run of digits. *)
Definition is_number (s : string) : Prop :=
  s <> EmptyString /\ all_digits s = true.

Definition entry_ok (en : cpu_entry) : Prop :=
  match en with
  | Single a => is_number a
  | Range a b => is_number a /\ is_number b
  end.

Definition entry_text (en : cpu_entry) : string :=
  match en with
  | Single a => a
  | Range a b => (a ++ "-" ++ b)%string
  end.

(** The entries joined by commas, then the newline the kernel ends the
    line with. *)
Fixpoint cpulist_text (first : cpu_entry) (others : list cpu_entry) : string :=
  match others with
  | [] => (entry_text first ++ String (ascii_of_nat 10) EmptyString)%string
  | en :: others' =>
      (entry_text first ++ "," ++ cpulist_text en others')%string
  end.

(** What stops a run of digits: the end of the string or a character
    that is no digit. *)
Definition stops_digits (rest : string) : Prop :=
  match rest with
  | EmptyString => True
  | String c _ => isdigit c = false
  end.

(** The numbers of the entry are within the range of [int]. *)
Definition entry_fits_int (en : cpu_entry) : Prop :=
  match en with
  | Single a => decimal_value a <= INT_MAX
  | Range a b => decimal_value a <= INT_MAX /\ decimal_value b <= INT_MAX
  end.

(** CPU [i] belongs to the entry. *)
Definition entry_has (en : cpu_entry) (i : Z) : Prop :=
  match en with
  | Single a => i = decimal_value a
  | Range a b => decimal_value a <= i <= decimal_value b
  end.

End Numa.

(** ** memory_random.c *)

(** What a workload does besides computing: the calls that the
    measurement contract speaks about. *)
Inductive effect : Type :=
  | Malloc (bytes : Z)
  | Free
  | Fprintf
  | MetricsInit
  | MetricsFinish
  | MetricsPrintCsv.

Module MemoryRandom.

(** [array[i]] for an in-range position.  (An out-of-range access is
    undefined in C; the model reads 0 there.) *)
Definition at_pos (a : list Z) (i : nat) : Z := default 0 (a !! i).

(** The slot numbers [0 .. n-1] as the uint64_t values the arrays
    hold. *)
Abbreviation slots n := (Z.of_nat <$> seq 0 n).

(** The slot that position [k] of [indices] names:
    [indices[k]] used as a subscript of the buffer. *)
Definition slot_at (indices : list Z) (k : nat) : nat :=
  Z.to_nat (at_pos indices k).

Section Rand.

(** [rand_seq k]: what the [k]-th call of [rand()] made by the function
    returns.  The [int] is converted to [size_t] before the remainder
    is taken ([wrap64]). *)
Variable rand_seq : nat -> Z.

(** [for (size_t i = 0; i < count; i++) indices[i] = i;] *)
Fixpoint fill_loop (todo : nat) (i : nat) (indices : list Z) : list Z :=
  match todo with
  | O => indices
  | S todo' => fill_loop todo' (S i) (<[i := Z.of_nat i]> indices)
  end.

(** [for (size_t i = count - 1; i > 0; i--)]: draw [j], swap [i] and
    [j].  [k] counts the calls of [rand()] made so far. *)
Fixpoint swap_loop (i : nat) (k : nat) (indices : list Z) : list Z :=
  match i with
  | O => indices
  | S i' =>
      let j := Z.to_nat (wrap64 (rand_seq k) mod (Z.of_nat i + 1)) in
      let tmp := at_pos indices i in
      let indices1 := <[i := at_pos indices j]> indices in
      let indices2 := <[j := tmp]> indices1 in
      swap_loop i' (S k) indices2
  end.

(** [shuffle_indices(indices, count)].  For [count = 0] the C code
    starts the second loop at SIZE_MAX and leaves the array; the
    theorems assume at least one slot. *)
Definition shuffle_indices (indices : list Z) (count : nat) : list Z :=
  swap_loop (count - 1) 0 (fill_loop count 0 indices).

(** [for (size_t i = 0; i < count - 1; i++)
       buffer[indices[i]] = indices[i + 1];] *)
Fixpoint link_loop (todo : nat) (i : nat) (indices buffer : list Z) : list Z :=
  match todo with
  | O => buffer
  | S todo' =>
      link_loop todo' (S i) indices
        (<[slot_at indices i := at_pos indices (S i)]> buffer)
  end.

(** The chain written into the buffer, closed into a ring. *)
Definition build_chain (indices buffer : list Z) (count : nat) : list Z :=
  let buffer1 := link_loop (count - 1) 0 indices buffer in
  <[slot_at indices (count - 1) := at_pos indices 0]> buffer1.

(** [for (i = 0; i < iterations; i++) index = buffer[index];] *)
Fixpoint chase_loop (todo : nat) (buffer : list Z) (index : Z) : Z :=
  match todo with
  | O => index
  | S todo' => chase_loop todo' buffer (at_pos buffer (Z.to_nat index))
  end.

(** The slots read by the same loop, in order. *)
Fixpoint chase_visited (todo : nat) (buffer : list Z) (index : Z) : list Z :=
  match todo with
  | O => []
  | S todo' => index :: chase_visited todo' buffer (at_pos buffer (Z.to_nat index))
  end.

Record chase_result : Type := {
  chase_ret : Z;
  chase_buffer : list Z;
  chase_effects : list effect
}.

(** [memory_random_chase(buffer, size, iterations)].
    [fresh] is what [malloc] hands out: [None] for NULL, else the
    (indeterminate) content of the new block of [count] slots. *)
Definition memory_random_chase (fresh : option (list Z))
    (buffer : list Z) (size : Z) (iterations : Z) : chase_result :=
  let count := Z.to_nat (size / 8) in
  let request := Malloc (wrap64 (Z.of_nat count * 8)) in
  match fresh with
  | None =>
      {| chase_ret := 0; chase_buffer := buffer;
         chase_effects := [request] |}
  | Some block =>
      let indices := shuffle_indices block count in
      let buffer' := build_chain indices buffer count in
      {| chase_ret := chase_loop (Z.to_nat iterations) buffer' 0;
         chase_buffer := buffer';
         chase_effects := [request; Free] |}
  end.

End Rand.

End MemoryRandom.

(** ** scenarios/numa_locality.c: one run of the measured loop *)

Module NumaLocality.
Import Metrics MemoryRandom.

Definition MB : Z := 1024 * 1024.
Definition BUFFER_SIZE : Z := 64 * MB.
Definition ITERATIONS : Z := 1000000.

(** The body of [for (run = 0; run < RUNS; run++)]:
    the effects of its five statements, in program order. *)
Definition run_effects (rand_seq : nat -> Z) (fresh : option (list Z))
    (local_buffer : list Z) : list effect :=
  [Fprintf; MetricsInit] ++
  chase_effects
    (memory_random_chase rand_seq fresh local_buffer BUFFER_SIZE ITERATIONS) ++
  [MetricsFinish; MetricsPrintCsv].

(** The measured region of a run: what happens after [metrics_init]
    and before the next [metrics_finish]. *)
Fixpoint until_finish (t : list effect) : list effect :=
  match t with
  | [] => []
  | MetricsFinish :: _ => []
  | x :: t' => x :: until_finish t'
  end.

Fixpoint measured_region (t : list effect) : list effect :=
  match t with
  | [] => []
  | MetricsInit :: t' => until_finish t'
  | _ :: t' => measured_region t'
  end.

Definition is_malloc (x : effect) : bool :=
  match x with
  | Malloc _ => true
  | _ => false
  end.

End NumaLocality.

(** ** Concrete kernel answers used in the examples *)

Module Samples.
Import Metrics.

Definition tab : string := String (ascii_of_nat 9) EmptyString.
Definition nl : string := String (ascii_of_nat 10) EmptyString.

(** /proc/self/status with 5 voluntary and 2 involuntary switches. *)
Definition status_5_2 : pseudo_file :=
  Some [ ("Name:" ++ tab ++ "pinned" ++ nl)%string;
         ("Threads:" ++ tab ++ "1" ++ nl)%string;
         ("voluntary_ctxt_switches:" ++ tab ++ "5" ++ nl)%string;
         ("nonvoluntary_ctxt_switches:" ++ tab ++ "2" ++ nl)%string ].

(** The same file after 4 more voluntary and 1 more involuntary
    switch. *)
Definition status_9_3 : pseudo_file :=
  Some [ ("Name:" ++ tab ++ "pinned" ++ nl)%string;
         ("Threads:" ++ tab ++ "1" ++ nl)%string;
         ("voluntary_ctxt_switches:" ++ tab ++ "9" ++ nl)%string;
         ("nonvoluntary_ctxt_switches:" ++ tab ++ "3" ++ nl)%string ].

(** A status file that opens but carries neither label. *)
Definition status_unlabeled : pseudo_file :=
  Some [ ("Name:" ++ tab ++ "pinned" ++ nl)%string ].

(** /proc/self/stat with minflt = 97 and majflt = 3. *)
Definition stat_97_3 : pseudo_file :=
  Some [ ("1234 (pinned) R 1 1234 1234 0 -1 4194304 97 0 3 0 12 1 0 0 20 0 1"
          ++ nl)%string ].

Definition stat_120_3 : pseudo_file :=
  Some [ ("1234 (pinned) R 1 1234 1234 0 -1 4194304 120 0 3 0 12 1 0 0 20 0 1"
          ++ nl)%string ].

Definition clock_ok (sec nsec : Z) : clock_reply :=
  {| clock_rc := 0; clock_ts := {| tv_sec := sec; tv_nsec := nsec |} |}.

(** A failed clock read: -1, and a stack slot that happened to hold
    1 s and 5 ns. *)
Definition clock_failed : clock_reply :=
  {| clock_rc := -1; clock_ts := {| tv_sec := 1; tv_nsec := 5 |} |}.

(** A healthy snapshot at the start of an iteration ... *)
Definition begin_env : sample_env :=
  {| env_clock := clock_ok 100 250;
     env_status := status_5_2;
     env_stat := stat_97_3;
     env_cpu := 0 |}.

(** ... a healthy one at its end ... *)
Definition end_env : sample_env :=
  {| env_clock := clock_ok 100 900;
     env_status := status_9_3;
     env_stat := stat_120_3;
     env_cpu := 0 |}.

(** ... and an end at which both pseudo-files fail to open. *)
Definition end_env_unreadable : sample_env :=
  {| env_clock := clock_ok 100 900;
     env_status := None;
     env_stat := None;
     env_cpu := 0 |}.

(** Every event opens, each on its own descriptor. *)
Definition open_all (type config : Z) : Z := 10 + 10 * type + config.

(** Only the branch-instructions event opens (on descriptor 7). *)
Definition open_branches_only (type config : Z) : Z :=
  if (type =? Perf.PERF_TYPE_HARDWARE)
     && (config =? Perf.PERF_COUNT_HW_BRANCH_INSTRUCTIONS)
  then 7 else -1.

(** Every event opens but the last-level-cache one. *)
Definition open_no_llc (type config : Z) : Z :=
  if (type =? Perf.PERF_TYPE_HARDWARE)
     && (config =? Perf.PERF_COUNT_HW_CACHE_MISSES)
  then -1 else open_all type config.

(** Every read is complete. *)
Definition read_full (fd : Z) : Perf.read_reply :=
  {| Perf.rd_ret := 8; Perf.rd_data := 1000 + fd |}.

(** The read of descriptor 10 (cycles under [open_all]) is cut short
    after 3 bytes. *)
Definition read_short_cycles (fd : Z) : Perf.read_reply :=
  if fd =? 10 then {| Perf.rd_ret := 3; Perf.rd_data := 999 |}
  else read_full fd.

(** A stand-in for the C library's generator. *)
Definition rand_sample (k : nat) : Z := 7 * Z.of_nat k + 3.

(** A four-slot buffer after the scenario's [memset(.., 0x42, ..)]. *)
Definition buffer_4 : list Z := replicate 4 4774451407313060418.

(** A fresh block of four slots, content left over from earlier use. *)
Definition block_4 : list Z := [9; 9; 9; 9].

End Samples.

(** ** numa_utils.c: node count, node-bound allocation, release *)

Module NumaAlloc.

Definition NUMA_MAXNODES : nat := 256.
Definition BITS_PER_LONG : Z := 64.
Definition MPOL_BIND : Z := 2.
Definition MPOL_INTERLEAVE : Z := 3.
Definition MPOL_MF_STRICT : Z := Z.shiftl 1 0.
Definition MPOL_MF_MOVE : Z := Z.shiftl 1 1.

(** The sentinel of [cached_node_count] before the first query. *)
Definition UNCACHED : Z := -2.

(** The calls the allocator makes into the C library and the kernel. *)
Inductive call : Type :=
  | CallMalloc (size : Z)
  | CallFree (ptr : Z)
  | CallMmap (size : Z)
  | CallMunmap (ptr size : Z)
  | CallMbind (ptr size mode : Z) (nodemask : list Z) (maxnode flags : Z)
  | CallWarn.

(** What the system answers.  A pointer is an address, 0 for NULL;
    [os_mmap] gives [None] for MAP_FAILED. *)
Record os : Type := {
  node_exists : Z -> bool;
  os_malloc : Z -> Z;
  os_mmap : Z -> option Z;
  os_mbind : Z -> Z -> Z -> list Z -> Z -> Z -> Z;
  os_munmap : Z -> Z -> Z
}.

Section System.

Variable w : os.

(** [for (int i = 0; i < NUMA_MAXNODES; i++)]: count node directories
    until the first missing one. *)
Fixpoint count_loop (todo : nat) (i count : Z) : Z :=
  match todo with
  | O => count
  | S todo' =>
      if node_exists w i then count_loop todo' (i + 1) (count + 1)
      else count
  end.

(** [numa_get_node_count()]: the value returned and the new content of
    the static [cached_node_count]. *)
Definition numa_get_node_count (cached : Z) : Z * Z :=
  if negb (cached =? UNCACHED) then (cached, cached)
  else
    let count := count_loop NUMA_MAXNODES 0 0 in
    let c := if 0 <? count then count else -1 in
    (c, c).

Definition numa_is_available (cached : Z) : bool * Z :=
  let '(n, cached') := numa_get_node_count cached in
  (1 <? n, cached').

(** The variable-length [nodemask] array after [memset]. *)
Definition nodemask_zero (node_count : Z) : list Z :=
  replicate (Z.to_nat ((node_count + BITS_PER_LONG - 1) / BITS_PER_LONG)) 0.

Definition word_at (mask : list Z) (i : nat) : Z := default 0 (mask !! i).

(** [numa_alloc_on_node(size, node)]: the pointer returned, the cache
    and the calls made. *)
Definition numa_alloc_on_node (cached : Z) (size node : Z)
  : Z * Z * list call :=
  let '(node_count, cached') := numa_get_node_count cached in
  if node_count <? 2 then
    (os_malloc w size, cached', [CallMalloc size])
  else if (node <? 0) || (node_count <=? node) then
    (0, cached', [])
  else
    match os_mmap w size with
    | None => (0, cached', [CallMmap size])
    | Some ptr =>
        let nodemask :=
          <[Z.to_nat (node / BITS_PER_LONG) :=
              wrap64 (Z.shiftl 1 (node mod BITS_PER_LONG))]>
            (nodemask_zero node_count) in
        let flags := Z.lor MPOL_MF_STRICT MPOL_MF_MOVE in
        let ret :=
          os_mbind w ptr size MPOL_BIND nodemask (node_count + 1) flags in
        let bind :=
          CallMbind ptr size MPOL_BIND nodemask (node_count + 1) flags in
        if negb (ret =? 0) then (ptr, cached', [CallMmap size; bind; CallWarn])
        else (ptr, cached', [CallMmap size; bind])
    end.

(** [for (int i = 0; i < node_count; i++)
       nodemask[i / BITS_PER_LONG] |= 1UL << (i % BITS_PER_LONG);] *)
Fixpoint all_nodes_loop (todo : nat) (i : Z) (nodemask : list Z) : list Z :=
  match todo with
  | O => nodemask
  | S todo' =>
      let word := Z.to_nat (i / BITS_PER_LONG) in
      all_nodes_loop todo' (i + 1)
        (<[word := Z.lor (word_at nodemask word)
                     (wrap64 (Z.shiftl 1 (i mod BITS_PER_LONG)))]> nodemask)
  end.

Definition numa_alloc_interleaved (cached : Z) (size : Z)
  : Z * Z * list call :=
  let '(node_count, cached') := numa_get_node_count cached in
  if node_count <? 2 then
    (os_malloc w size, cached', [CallMalloc size])
  else
    match os_mmap w size with
    | None => (0, cached', [CallMmap size])
    | Some ptr =>
        let nodemask :=
          all_nodes_loop (Z.to_nat node_count) 0 (nodemask_zero node_count) in
        let ret :=
          os_mbind w ptr size MPOL_INTERLEAVE nodemask (node_count + 1)
            MPOL_MF_MOVE in
        let bind :=
          CallMbind ptr size MPOL_INTERLEAVE nodemask (node_count + 1)
            MPOL_MF_MOVE in
        if negb (ret =? 0) then (ptr, cached', [CallMmap size; bind; CallWarn])
        else (ptr, cached', [CallMmap size; bind])
    end.

(** [numa_free(ptr, size)]: return value, cache, calls made. *)
Definition numa_free (cached : Z) (ptr size : Z) : Z * Z * list call :=
  if ptr =? 0 then (0, cached, [])
  else
    let '(node_count, cached') := numa_get_node_count cached in
    if 2 <=? node_count then
      if negb (os_munmap w ptr size =? 0) then
        (-1, cached', [CallMunmap ptr size])
      else (0, cached', [CallMunmap ptr size])
    else (0, cached', [CallFree ptr]).

End System.

(** Bit [n] of a node mask: bit [n mod 64] of word [n / 64]. *)
Definition mask_bit (mask : list Z) (n : Z) : bool :=
  Z.testbit (word_at mask (Z.to_nat (n / BITS_PER_LONG))) (n mod BITS_PER_LONG).

(** The node mask a call handed to [mbind], if the call is one. *)
Definition bound_mask (c : call) : option (list Z) :=
  match c with
  | CallMbind _ _ _ nodemask _ _ => Some nodemask
  | _ => None
  end.

Definition is_mmap_call (c : call) : bool :=
  match c with
  | CallMmap _ => true
  | _ => false
  end.

End NumaAlloc.

(** ** Sample systems for the NUMA allocator *)

Module NumaSamples.
Import NumaAlloc.

(** A machine with two node directories; every call succeeds. *)
Definition two_nodes : os :=
  {| node_exists := fun i => i <? 2;
     os_malloc := fun _ => 4096;
     os_mmap := fun _ => Some 8192;
     os_mbind := fun _ _ _ _ _ _ => 0;
     os_munmap := fun _ _ => 0 |}.

(** The same machine after the node directories have vanished. *)
Definition no_nodes : os :=
  {| node_exists := fun _ => false;
     os_malloc := fun _ => 4096;
     os_mmap := fun _ => Some 8192;
     os_mbind := fun _ _ _ _ _ _ => 0;
     os_munmap := fun _ _ => 0 |}.

(** A machine with 130 nodes: the node mask spans three words. *)
Definition many_nodes : os :=
  {| node_exists := fun i => i <? 130;
     os_malloc := fun _ => 4096;
     os_mmap := fun _ => Some 8192;
     os_mbind := fun _ _ _ _ _ _ => -1;
     os_munmap := fun _ _ => 0 |}.

End NumaSamples.

(** ** scenarios/numa_locality.c: the CPU the scenario pins to *)

Module NumaLocalityMain.
Import Numa.

(** [for (int i = 0; i < 64; i++)
       if (node0_cpus & (1ULL << i)) { cpu0 = i; break; }] *)
Fixpoint first_cpu_loop (todo : nat) (i : Z) (node0_cpus cpu0 : Z) : Z :=
  match todo with
  | O => cpu0
  | S todo' =>
      if negb (Z.land node0_cpus (wrap64 (Z.shiftl 1 i)) =? 0) then i
      else first_cpu_loop todo' (i + 1) node0_cpus cpu0
  end.

(** The value of [cpu0] handed to [pin_to_cpu]: 0 unless NUMA is
    available and the mask of node 0 has a bit set. *)
Definition select_cpu0 (available : bool) (node0_cpulist : pseudo_file) : Z :=
  let cpu0 := 0 in
  if available then
    first_cpu_loop 64 0 (numa_node_to_cpus node0_cpulist) cpu0
  else cpu0.

(** The first CPU of a cpulist entry, when the entry names one below
    64. *)
Definition entry_first_cpu (en : cpu_entry) : option Z :=
  match en with
  | Single a =>
      if decimal_value a <? 64 then Some (decimal_value a) else None
  | Range a b =>
      if (decimal_value a <=? decimal_value b) && (decimal_value a <? 64)
      then Some (decimal_value a) else None
  end.

End NumaLocalityMain.

(** ** The text of the two pseudo-files, for stating what the readers
    extract *)

Module ProcFormat.
Import CLib Numa Samples.

(** A field of the stat record holds no blank. *)
Fixpoint no_space (s : string) : bool :=
  match s with
  | EmptyString => true
  | String c s' => negb (Ascii.eqb c " "%char) && no_space s'
  end.

(** Fields, each followed by its blank. *)
Fixpoint fields_text (fs : list string) : string :=
  match fs with
  | [] => EmptyString
  | f :: fs' => (f ++ " " ++ fields_text fs')%string
  end.

(** Fields separated by single blanks, nothing after the last. *)
Fixpoint join_fields (fs : list string) : string :=
  match fs with
  | [] => EmptyString
  | [f] => f
  | f :: fs' => (f ++ " " ++ join_fields fs')%string
  end.

(** A stat line: nine leading fields, [minflt], [cminflt], [majflt]
    and whatever follows. *)
Definition stat_line (leading : list string) (minflt cminflt majflt : string)
    (rest : string) : string :=
  (fields_text leading ++ minflt ++ " " ++ cminflt ++ " " ++ majflt ++ rest)
  %string.

(** The two label lines as the kernel prints them. *)
Definition voluntary_line (v : string) : string :=
  ("voluntary_ctxt_switches:" ++ tab ++ v ++ nl)%string.

Definition nonvoluntary_line (v : string) : string :=
  ("nonvoluntary_ctxt_switches:" ++ tab ++ v ++ nl)%string.

(** A line that carries neither label. *)
Definition unlabelled (line : string) : Prop :=
  strncmp_eq line "voluntary_ctxt_switches:"%string 24 = false /\
  strncmp_eq line "nonvoluntary_ctxt_switches:"%string 27 = false.

(** A status file: other lines around the two label lines. *)
Definition status_file (before : list string) (v : string)
    (between : list string) (nv : string) (after : list string)
  : pseudo_file :=
  Some (before ++ [voluntary_line v] ++ between ++ [nonvoluntary_line nv]
        ++ after).

(** A count as the kernel prints it: digits, the value within
    [unsigned long]. *)
Definition is_count (s : string) : Prop :=
  is_number s /\ decimal_value s <= UINT64_MAX.

(** A clock reading as the kernel delivers it: normalised, and early
    enough for the nanosecond count to fit 64 bits. *)
Definition normal_time (ts : Metrics.timespec) : Prop :=
  0 <= Metrics.tv_sec ts /\ 0 <= Metrics.tv_nsec ts < 1000000000 /\
  Metrics.tv_sec ts * 1000000000 + Metrics.tv_nsec ts < two64.

(** Elapsed nanoseconds between two readings. *)
Definition ns_between (t0 t1 : Metrics.timespec) : Z :=
  (Metrics.tv_sec t1 - Metrics.tv_sec t0) * 1000000000
  + (Metrics.tv_nsec t1 - Metrics.tv_nsec t0).

(** [t0] is strictly before [t1]. *)
Definition earlier (t0 t1 : Metrics.timespec) : Prop :=
  Metrics.tv_sec t0 < Metrics.tv_sec t1 \/
  (Metrics.tv_sec t0 = Metrics.tv_sec t1 /\
   Metrics.tv_nsec t0 < Metrics.tv_nsec t1).

End ProcFormat.

(** ** perf_counters.c: release; cache_analysis.c: what is written *)

Module PerfClose.
Import Perf.

(** One guarded [close] of [perf_counters_close]. *)
Definition close_one (fd : Z) : list syscall :=
  if 0 <=? fd then [Close fd] else [].

Definition perf_counters_close (pc : perf_counters_t) : list syscall :=
  close_one (fd_instructions pc) ++
  close_one (fd_cycles pc) ++
  close_one (fd_l1_dcache_misses pc) ++
  close_one (fd_llc_misses pc) ++
  close_one (fd_branches pc) ++
  close_one (fd_branch_misses pc).

(** The start-value slots of the record. *)
Definition start_slots (pc : perf_counters_t) : list Z :=
  [ instructions_start pc; cycles_start pc; l1_misses_start pc;
    llc_misses_start pc; branches_start pc; branch_misses_start pc ].

(** A scenario's measured iterations: one [perf_counters_start] and one
    [perf_counters_stop] per element of [reads], each stop reading from
    the kernel of its iteration. *)
Fixpoint iterations (reads : list (Z -> read_reply)) (pc : perf_counters_t)
  : perf_counters_t :=
  match reads with
  | [] => pc
  | sys_read :: reads' =>
      iterations reads' (fst (perf_counters_stop sys_read pc))
  end.

End PerfClose.

(** ** The C library's decimal output *)

Module CPrint.
Import CLib.

Definition digit_char (d : Z) : ascii := ascii_of_nat (Z.to_nat (48 + d)).

(** Digits of [n], most significant first, in front of [acc]. *)
Fixpoint print_digits (fuel : nat) (n : Z) (acc : string) : string :=
  match fuel with
  | O => acc
  | S fuel' =>
      let acc' := String (digit_char (n mod 10)) acc in
      if n <? 10 then acc' else print_digits fuel' (n / 10) acc'
  end.

(** ["%lu"] of an [unsigned long] (at most 20 digits). *)
Definition print_lu (n : Z) : string := print_digits 20 n EmptyString.

(** ["%d"] of an [int]. *)
Definition print_d (n : Z) : string :=
  if n <? 0 then String "-"%char (print_lu (- n)) else print_lu n.

Fixpoint count_char (c : ascii) (s : string) : nat :=
  match s with
  | EmptyString => O
  | String x s' => if Ascii.eqb x c then S (count_char c s') else count_char c s'
  end.

Definition comma : ascii := ","%char.
Definition newline : ascii := ascii_of_nat 10.

(** Reading a line back: [n] integer conversions, each followed by one
    separator character. *)
Fixpoint scan_columns (n : nat) (s : string) : list Z :=
  match n with
  | O => []
  | S n' =>
      match scan_integer s with
      | Some (neg, v, rest) =>
          to_int neg v :: scan_columns n' (Metrics.step_over rest)
      | None => []
      end
  end.

End CPrint.

(** ** metrics.c and perf_counters.c: the text of the CSV output *)

Module CsvText.
Import CLib CPrint Metrics Samples.

(** [metrics_print_csv_header]: the two [fprintf] strings. *)
Definition metrics_print_csv_header : string :=
  ("timestamp_ns,runtime_ns,voluntary_ctxt_switches,nonvoluntary_ctxt_switches,"
   ++ "minor_page_faults,major_page_faults,start_cpu,end_cpu" ++ nl)%string.

(** [metrics_print_csv]: ["%lu,%lu,%lu,%lu,%lu,%lu,%d,%d\n"]. *)
Definition metrics_print_csv_text (m : workload_metrics_t) : string :=
  (print_lu (timestamp_ns m) ++ "," ++
   print_lu (runtime_ns m) ++ "," ++
   print_lu (voluntary_ctxt_switches m) ++ "," ++
   print_lu (nonvoluntary_ctxt_switches m) ++ "," ++
   print_lu (minor_page_faults m) ++ "," ++
   print_lu (major_page_faults m) ++ "," ++
   print_d (start_cpu m) ++ "," ++
   print_d (end_cpu m) ++ nl)%string.


(** The fields of a record are in the range of their C types. *)
Definition fields_in_range (m : workload_metrics_t) : Prop :=
  Forall (fun x => 0 <= x < two64)
    [ timestamp_ns m; runtime_ns m; voluntary_ctxt_switches m;
      nonvoluntary_ctxt_switches m; minor_page_faults m;
      major_page_faults m ] /\
  Forall (fun x => - 2 ^ 31 <= x < 2 ^ 31) [ start_cpu m; end_cpu m ].

End CsvText.

(** ** cache_analysis.c: header and rows *)

Module CacheAnalysis.
Import CLib CPrint Metrics Perf PerfClose CsvText Samples.


(** What one run writes.  [perf_row] is the text
    [perf_counters_print_csv] produces for the record. *)
Definition row_text (run : Z) (name : string) (m : workload_metrics_t)
    (perf : perf_counters_t) (perf_row : string) : string :=
  (print_d run ++ "," ++ name ++ "," ++ metrics_print_csv_text m ++
   (if (0 <=? fd_instructions perf)%Z then "," ++ perf_row else nl))%string.




End CacheAnalysis.

(** ** memory_stream.c *)

Module MemoryStream.
Import MemoryRandom.


(** [for (size_t i = 0; i < count; i++) sum += buffer[i];] *)
Fixpoint sum_loop (todo : nat) (i : nat) (buffer : list Z) (sum : Z) : Z :=
  match todo with
  | O => sum
  | S todo' => sum_loop todo' (S i) buffer (wrap64 (sum + at_pos buffer i))
  end.

Definition memory_stream_read (buffer : list Z) (size : Z) : Z :=
  let count := Z.to_nat (size / 8) in
  sum_loop count 0 buffer 0.

(** [for (size_t i = 0; i < count; i++) buffer[i] = i;] *)
Fixpoint write_loop (todo : nat) (i : nat) (buffer : list Z) : list Z :=
  match todo with
  | O => buffer
  | S todo' => write_loop todo' (S i) (<[i := Z.of_nat i]> buffer)
  end.

Definition memory_stream_write (buffer : list Z) (size : Z) : list Z :=
  let count := Z.to_nat (size / 8) in
  write_loop count 0 buffer.





(** The sum of a list of uint64_t values, before reduction. *)
Definition total (l : list Z) : Z := foldr Z.add 0 l.


End MemoryStream.

(** ** memory_random.c: random read and index generation *)

Module MemoryRandomRead.
Import MemoryRandom.

(** [for (size_t i = 0; i < access_count; i++)
       sum += buffer[indices[i] % count];] *)
Fixpoint read_loop (todo : nat) (i : nat) (buffer indices : list Z)
    (count : Z) (sum : Z) : Z :=
  match todo with
  | O => sum
  | S todo' =>
      read_loop todo' (S i) buffer indices count
        (wrap64 (sum + at_pos buffer (Z.to_nat (at_pos indices i mod count))))
  end.

(** [memory_random_read(buffer, size, indices, access_count)].  With
    [size < 8] the C code divides by zero. *)
Definition memory_random_read (buffer : list Z) (size : Z)
    (indices : list Z) (access_count : Z) : Z :=
  let count := size / 8 in
  read_loop (Z.to_nat access_count) 0 buffer indices count 0.

(** The buffer positions the same loop reads, in order. *)
Definition read_positions (size : Z) (indices : list Z) (access_count : Z)
  : list Z :=
  (fun i => at_pos indices i mod (size / 8)) <$> seq 0 (Z.to_nat access_count).

(** [memory_random_generate_indices(indices, count, seed)]:
    [srand(seed)], then the shuffle.  [rand_of_seed seed] is the
    sequence [rand()] yields after [srand(seed)]. *)
Definition memory_random_generate_indices (rand_of_seed : Z -> nat -> Z)
    (indices : list Z) (count : nat) (seed : Z) : list Z :=
  shuffle_indices (rand_of_seed seed) indices count.

End MemoryRandomRead.

(** ** lock_contention.c: the elapsed time of a lock test *)

Module LockContention.
Import Metrics.

(** The last statement of [run_lock_test]:
    [(end.tv_sec - start.tv_sec) * 1000000000ULL
     + (end.tv_nsec - start.tv_nsec)].
    The two differences are [long]; each is converted to
    [unsigned long] by the arithmetic with the unsigned constant. *)
Definition elapsed_ns (start finish : timespec) : Z :=
  wrap64 (wrap64 (wrap64 (tv_sec finish - tv_sec start) * 1000000000)
          + wrap64 (tv_nsec finish - tv_nsec start)).

End LockContention.

(* ================================================================= *)
(** * Properties *)
(* ================================================================= *)

Lemma wrap64_range x : 0 <= wrap64 x < two64.
Proof. unfold wrap64, two64. apply Z.mod_pos_bound. lia. Qed.

Lemma wrap64_small x : 0 <= x < two64 -> wrap64 x = x.
Proof. intros H. unfold wrap64. apply Z.mod_small. exact H. Qed.

(** ** Theorems: cpu_spin.c *)

Module CpuSpinFacts.
Import CpuSpin.

Example cpu_spin_3 : cpu_spin 3 = 45.
Proof. reflexivity. Qed.

Example cpu_spin_long_3_2 : cpu_spin_long 3 2 = 1260.
Proof. reflexivity. Qed.

Lemma spin_body_range i r : 0 <= spin_body i r < two64.
Proof. unfold spin_body. apply wrap64_range. Qed.

Lemma spin_loop_range todo : forall i r,
  0 <= r < two64 -> 0 <= spin_loop todo i r < two64.
Proof.
  induction todo as [|todo IH]; intros i r Hr; simpl.
  - exact Hr.
  - apply IH. apply spin_body_range.
Qed.

(** C10. For every iteration count [n], the phased CPU-spin variant run
    with exactly one phase returns what the plain CPU-spin kernel
    returns: cpu_spin_long(n, 1) = cpu_spin(n). *)
Theorem cpu_spin_long_one_phase (n : Z) :
  cpu_spin_long n 1 = cpu_spin n.
Proof.
  unfold cpu_spin_long, cpu_spin.
  change (Z.to_nat 1) with 1%nat.
  reflexivity.
Qed.

End CpuSpinFacts.

(** ** Theorems: metrics.c *)

Module MetricsFacts.
Import CLib Metrics Samples.

(** The timestamp is the nanosecond count of the buffer, reduced
    modulo 2^64. *)
Lemma get_timestamp_ns_value c :
  get_timestamp_ns c =
  wrap64 (tv_sec (clock_ts c) * 1000000000 + tv_nsec (clock_ts c)).
Proof.
  unfold get_timestamp_ns, wrap64, two64.
  rewrite Zmult_mod_idemp_l, <- Zplus_mod. reflexivity.
Qed.

Lemma get_timestamp_ns_range c : 0 <= get_timestamp_ns c < two64.
Proof. unfold get_timestamp_ns. apply wrap64_range. Qed.

(** *** The healthy path, on the sample files *)

Example healthy_iteration :
  metrics_print_csv (emitted_record begin_env end_env (77, 88) metrics_zero)
  = [100000000900; 650; 4; 1; 23; 0; 0; 0].
Proof. vm_compute. reflexivity. Qed.

Example begin_snapshot :
  metrics_print_csv (metrics_init begin_env metrics_zero)
  = [100000000250; 0; 5; 2; 97; 3; 0; 0].
Proof. vm_compute. reflexivity. Qed.

(** *** Failed endpoint reads *)

Lemma read_ctxt_switches_unopened vn : read_ctxt_switches None vn = (0, 0).
Proof. reflexivity. Qed.

Lemma read_page_faults_unopened : read_page_faults None = (0, 0).
Proof. reflexivity. Qed.

(** A begin snapshot whose reads fail leaves zeros in the slots. *)
Lemma metrics_init_unreadable e m :
  env_status e = None -> env_stat e = None ->
  let r := metrics_init e m in
  voluntary_ctxt_switches r = 0 /\ nonvoluntary_ctxt_switches r = 0 /\
  minor_page_faults r = 0 /\ major_page_faults r = 0.
Proof.
  intros Hs Ht. unfold metrics_init. rewrite Hs, Ht. simpl. auto.
Qed.

(** When the reads fail at both endpoints the emitted counters are 0. *)
Lemma both_endpoints_unreadable b e locals m :
  env_status b = None -> env_stat b = None ->
  env_status e = None -> env_stat e = None ->
  let r := emitted_record b e locals m in
  voluntary_ctxt_switches r = 0 /\ nonvoluntary_ctxt_switches r = 0 /\
  minor_page_faults r = 0 /\ major_page_faults r = 0.
Proof.
  intros Hbs Hbt Hes Het. unfold emitted_record, metrics_finish, metrics_init.
  rewrite Hbs, Hbt, Hes, Het. simpl. auto.
Qed.

(** C1 (the code departs from the claim).  When the status file was
    read at the start of the iteration (count [v > 0]) and cannot be
    opened at its end, [metrics_finish] subtracts the start count from
    the 0 that the failed read stored: the emitted
    voluntary_ctxt_switches is [2^64 - v], a wrapped-around value, and
    not the 0 the claim requires. *)
Theorem end_read_failure_wraps (b e : sample_env) (locals : Z * Z)
    (m : workload_metrics_t) :
  env_status e = None ->
  0 < voluntary_ctxt_switches (metrics_init b m) < two64 ->
  let v := voluntary_ctxt_switches (metrics_init b m) in
  let r := emitted_record b e locals m in
  voluntary_ctxt_switches r = two64 - v /\ voluntary_ctxt_switches r <> 0.
Proof.
  intros He Hv v r.
  assert (Hr : voluntary_ctxt_switches r = wrap64 (0 - v)).
  { unfold r, emitted_record, metrics_finish. rewrite He. simpl.
    destruct (read_page_faults (env_stat e)). reflexivity. }
  assert (Hw : wrap64 (0 - v) = two64 - v).
  { unfold wrap64. replace (0 - v) with ((two64 - v) + (-1) * two64) by lia.
    rewrite Z_mod_plus_full. apply Z.mod_small. fold v in Hv. lia. }
  rewrite Hr, Hw. fold v in Hv. split; [reflexivity | lia].
Qed.

Lemma end_read_failure_wraps_witness :
  metrics_print_csv
    (emitted_record begin_env end_env_unreadable (77, 88) metrics_zero)
  = [100000000900; 650; 18446744073709551611; 18446744073709551614;
     18446744073709551519; 18446744073709551613; 0; 0]
  /\ voluntary_ctxt_switches
       (emitted_record begin_env end_env_unreadable (77, 88) metrics_zero)
     = two64 - 5.
Proof.
  split; [vm_compute; reflexivity |].
  exact (proj1 (end_read_failure_wraps begin_env end_env_unreadable (77, 88)
                  metrics_zero eq_refl (conj eq_refl eq_refl))).
Defined.

(** A status file that opens but carries no label line leaves the
    uninitialised locals of [metrics_finish] as they were: the emitted
    count is built from stack content. *)
Example end_unlabeled_status_uses_locals :
  let e := {| env_clock := clock_ok 100 900; env_status := status_unlabeled;
              env_stat := stat_120_3; env_cpu := 0 |} in
  voluntary_ctxt_switches (emitted_record begin_env e (77, 88) metrics_zero)
  = 72.
Proof. vm_compute. reflexivity. Qed.

(** *** The timestamp column *)

(** C2 (counterexample).  With the clock at 100.000000250 s when the
    iteration starts and at 100.000000900 s when it ends, the emitted
    timestamp_ns is the end capture, not the capture of begin. *)
Lemma emitted_timestamp_not_begin :
  get_timestamp_ns (env_clock begin_env) = 100000000250 /\
  timestamp_ns (emitted_record begin_env end_env (77, 88) metrics_zero)
  = 100000000900 /\
  timestamp_ns (emitted_record begin_env end_env (77, 88) metrics_zero)
  <> get_timestamp_ns (env_clock begin_env).
Proof. vm_compute. repeat split; congruence. Qed.

(** The two clock columns of an emitted record. *)
Lemma emitted_clock_columns b e locals m :
  timestamp_ns (emitted_record b e locals m) = get_timestamp_ns (env_clock e)
  /\ runtime_ns (emitted_record b e locals m) =
     wrap64 (get_timestamp_ns (env_clock e) - get_timestamp_ns (env_clock b)).
Proof.
  unfold emitted_record, metrics_finish, metrics_init.
  destruct (read_ctxt_switches (env_status b) _) as [v nv].
  destruct (read_page_faults (env_stat b)) as [mi ma].
  destruct (read_ctxt_switches (env_status e) locals) as [v' nv'].
  destruct (read_page_faults (env_stat e)) as [mi' ma'].
  simpl. auto.
Qed.

Lemma begin_timestamp b m :
  timestamp_ns (metrics_init b m) = get_timestamp_ns (env_clock b).
Proof.
  unfold metrics_init.
  destruct (read_ctxt_switches (env_status b) _) as [v nv].
  destruct (read_page_faults (env_stat b)) as [mi ma].
  reflexivity.
Qed.

(** C2 (as amended).  For every emitted record, timestamp_ns is the
    clock value captured by [metrics_finish] at the end of the
    iteration (the value stored by [metrics_init] is replaced once the
    runtime has been computed), and runtime_ns is the end capture minus
    the start capture, in uint64_t arithmetic. *)
Theorem emitted_timestamp_is_end_capture (b e : sample_env)
    (locals : Z * Z) (m : workload_metrics_t) :
  let r := emitted_record b e locals m in
  timestamp_ns (metrics_init b m) = get_timestamp_ns (env_clock b) /\
  timestamp_ns r = get_timestamp_ns (env_clock e) /\
  runtime_ns r =
    wrap64 (get_timestamp_ns (env_clock e) - get_timestamp_ns (env_clock b)).
Proof.
  intros r. split; [apply begin_timestamp | apply emitted_clock_columns].
Qed.

(** With a clock that did not go backwards the runtime is the plain
    difference. *)
Lemma runtime_is_difference b e locals m :
  get_timestamp_ns (env_clock b) <= get_timestamp_ns (env_clock e) ->
  runtime_ns (emitted_record b e locals m) =
  get_timestamp_ns (env_clock e) - get_timestamp_ns (env_clock b).
Proof.
  intros Hle.
  destruct (emitted_clock_columns b e locals m) as (_ & ->).
  pose proof (get_timestamp_ns_range (env_clock b)).
  pose proof (get_timestamp_ns_range (env_clock e)).
  apply wrap64_small. lia.
Qed.

(** *** The timing primitive *)

(** C4 (counterexample).  A clock read that fails with -1 does not end
    the call: the primitive returns a timestamp built from the buffer
    the failed read left untouched. *)
Lemma failed_clock_read_yields_timestamp :
  clock_rc clock_failed <> 0 /\
  call_get_timestamp_ns clock_failed = Returns 1000000005 /\
  (forall status, call_get_timestamp_ns clock_failed <> Aborts status).
Proof.
  split; [vm_compute; congruence |].
  split; [vm_compute; reflexivity |].
  intros status. vm_compute. congruence.
Qed.

(** C4 (as amended).  The timing primitive never looks at the status
    of the clock read and never aborts: every call returns
    tv_sec * 10^9 + tv_nsec (modulo 2^64) computed from the timespec
    buffer, whether the read succeeded or not. *)
Theorem timing_primitive_always_returns (rc rc' : Z) (ts : timespec) :
  let c := {| clock_rc := rc; clock_ts := ts |} in
  let c' := {| clock_rc := rc'; clock_ts := ts |} in
  call_get_timestamp_ns c =
    Returns (wrap64 (tv_sec ts * 1000000000 + tv_nsec ts))
  /\ call_get_timestamp_ns c' = call_get_timestamp_ns c.
Proof.
  split.
  - unfold call_get_timestamp_ns. rewrite get_timestamp_ns_value. reflexivity.
  - reflexivity.
Qed.

End MetricsFacts.

(** ** Theorems: perf_counters.c *)

Module PerfFacts.
Import Perf Samples.

Lemma start_one_live fd :
  0 <= fd ->
  start_one fd = [Ioctl fd PERF_EVENT_IOC_RESET; Ioctl fd PERF_EVENT_IOC_ENABLE].
Proof. intros H. unfold start_one. apply Z.leb_le in H. rewrite H. reflexivity. Qed.

Lemma start_one_dead fd : fd < 0 -> start_one fd = [].
Proof. intros H. unfold start_one. apply Z.leb_gt in H. rewrite H. reflexivity. Qed.

Lemma stop_one_live sys_read fd old :
  0 <= fd ->
  stop_one sys_read fd old =
  (if rd_ret (sys_read fd) =? 8 then rd_data (sys_read fd) else 0,
   [Ioctl fd PERF_EVENT_IOC_DISABLE; Read fd 8]).
Proof. intros H. unfold stop_one. apply Z.leb_le in H. rewrite H. reflexivity. Qed.

Lemma stop_one_dead sys_read fd old :
  fd < 0 -> stop_one sys_read fd old = (old, []).
Proof. intros H. unfold stop_one. apply Z.leb_gt in H. rewrite H. reflexivity. Qed.

(** [perf_counters_stop], event by event. *)
Lemma stop_value sys_read pc e :
  value_of e (fst (perf_counters_stop sys_read pc)) =
  fst (stop_one sys_read (fd_of e pc) (value_of e pc)).
Proof.
  unfold perf_counters_stop.
  destruct (stop_one sys_read (fd_instructions pc) _) as [v1 t1] eqn:E1.
  destruct (stop_one sys_read (fd_cycles pc) _) as [v2 t2] eqn:E2.
  destruct (stop_one sys_read (fd_l1_dcache_misses pc) _) as [v3 t3] eqn:E3.
  destruct (stop_one sys_read (fd_llc_misses pc) _) as [v4 t4] eqn:E4.
  destruct (stop_one sys_read (fd_branches pc) _) as [v5 t5] eqn:E5.
  destruct (stop_one sys_read (fd_branch_misses pc) _) as [v6 t6] eqn:E6.
  destruct e; simpl; [rewrite E1|rewrite E2|rewrite E3|rewrite E4|rewrite E5|rewrite E6];
    reflexivity.
Qed.

Lemma stop_fd sys_read pc e :
  fd_of e (fst (perf_counters_stop sys_read pc)) = fd_of e pc.
Proof.
  unfold perf_counters_stop.
  destruct (stop_one sys_read (fd_instructions pc) _) as [v1 t1].
  destruct (stop_one sys_read (fd_cycles pc) _) as [v2 t2].
  destruct (stop_one sys_read (fd_l1_dcache_misses pc) _) as [v3 t3].
  destruct (stop_one sys_read (fd_llc_misses pc) _) as [v4 t4].
  destruct (stop_one sys_read (fd_branches pc) _) as [v5 t5].
  destruct (stop_one sys_read (fd_branch_misses pc) _) as [v6 t6].
  destruct e; reflexivity.
Qed.

Lemma stop_trace sys_read pc :
  snd (perf_counters_stop sys_read pc) =
  concat (map (fun e => snd (stop_one sys_read (fd_of e pc) (value_of e pc)))
              all_events).
Proof.
  unfold perf_counters_stop.
  destruct (stop_one sys_read (fd_instructions pc) _) as [v1 t1] eqn:E1.
  destruct (stop_one sys_read (fd_cycles pc) _) as [v2 t2] eqn:E2.
  destruct (stop_one sys_read (fd_l1_dcache_misses pc) _) as [v3 t3] eqn:E3.
  destruct (stop_one sys_read (fd_llc_misses pc) _) as [v4 t4] eqn:E4.
  destruct (stop_one sys_read (fd_branches pc) _) as [v5 t5] eqn:E5.
  destruct (stop_one sys_read (fd_branch_misses pc) _) as [v6 t6] eqn:E6.
  simpl. rewrite E1, E2, E3, E4, E5, E6. simpl. rewrite app_nil_r. reflexivity.
Qed.

Lemma start_trace pc :
  perf_counters_start pc =
  concat (map (fun e => start_one (fd_of e pc)) all_events).
Proof. unfold perf_counters_start. simpl. rewrite app_nil_r. reflexivity. Qed.

(** The calls of a round, restricted to the live events. *)
Lemma concat_guarded {A} (f : hw_event -> list A) (g : hw_event -> bool)
    (h : hw_event -> list A) (l : list hw_event) :
  (forall e, f e = if g e then h e else []) ->
  concat (map f l) = concat (map h (filter (fun e => g e = true) l)).
Proof.
  intros Hf. induction l as [|e l IH]; [reflexivity|].
  simpl. rewrite Hf. rewrite filter_cons.
  destruct (g e) eqn:Hg.
  - rewrite decide_True by reflexivity. simpl. rewrite IH. reflexivity.
  - rewrite decide_False by discriminate. simpl. exact IH.
Qed.

Lemma start_live_events pc :
  perf_counters_start pc =
  concat (map (fun e => [Ioctl (fd_of e pc) PERF_EVENT_IOC_RESET;
                         Ioctl (fd_of e pc) PERF_EVENT_IOC_ENABLE])
              (filter (fun e => live pc e = true) all_events)).
Proof.
  rewrite start_trace. apply concat_guarded.
  intros e. unfold start_one, live. reflexivity.
Qed.

Lemma stop_live_events sys_read pc :
  snd (perf_counters_stop sys_read pc) =
  concat (map (fun e => [Ioctl (fd_of e pc) PERF_EVENT_IOC_DISABLE;
                         Read (fd_of e pc) 8])
              (filter (fun e => live pc e = true) all_events)).
Proof.
  rewrite stop_trace. apply concat_guarded.
  intros e. unfold stop_one, live. destruct (0 <=? fd_of e pc); reflexivity.
Qed.

Lemma init_fds sys_open e :
  fd_of e (snd (perf_counters_init sys_open)) =
  sys_open (fst (event_attr e)) (snd (event_attr e)).
Proof.
  unfold perf_counters_init, open_counter.
  match goal with |- context [if ?c then _ else _] => destruct c end;
    destruct e; reflexivity.
Qed.

Lemma init_values sys_open e :
  value_of e (snd (perf_counters_init sys_open)) = 0.
Proof.
  unfold perf_counters_init.
  match goal with |- context [if ?c then _ else _] => destruct c end;
    destruct e; reflexivity.
Qed.

Lemma init_status sys_open :
  let pc := snd (perf_counters_init sys_open) in
  fst (perf_counters_init sys_open) =
  if (fd_instructions pc <? 0) || (fd_cycles pc <? 0) then -1 else 0.
Proof.
  unfold perf_counters_init.
  cbv zeta.
  match goal with |- context [if ?c then _ else _] => destruct c eqn:E end;
    cbn [fst snd]; rewrite E; reflexivity.
Qed.

Lemma stop_all_dead sys_read pc :
  (forall e, fd_of e pc < 0) -> perf_counters_stop sys_read pc = (pc, []).
Proof.
  intros Hdead. unfold perf_counters_stop.
  pose proof (Hdead Instructions) as H1. pose proof (Hdead Cycles) as H2.
  pose proof (Hdead L1DcacheMisses) as H3. pose proof (Hdead LlcMisses) as H4.
  pose proof (Hdead Branches) as H5. pose proof (Hdead BranchMisses) as H6.
  simpl in H1, H2, H3, H4, H5, H6.
  rewrite (stop_one_dead _ _ _ H1), (stop_one_dead _ _ _ H2),
    (stop_one_dead _ _ _ H3), (stop_one_dead _ _ _ H4),
    (stop_one_dead _ _ _ H5), (stop_one_dead _ _ _ H6).
  destruct pc; reflexivity.
Qed.

Lemma start_all_dead pc :
  (forall e, fd_of e pc < 0) -> perf_counters_start pc = [].
Proof.
  intros Hdead. rewrite start_trace. unfold all_events. cbn [map concat].
  rewrite !start_one_dead by apply Hdead. reflexivity.
Qed.

(** An event that is not live keeps its field through a stop. *)
Lemma stop_dead_value sys_read pc e :
  fd_of e pc < 0 ->
  value_of e (fst (perf_counters_stop sys_read pc)) = value_of e pc.
Proof.
  intros H. rewrite stop_value, stop_one_dead by exact H. reflexivity.
Qed.

(** *** Availability of the group *)

(** C6 (counterexample).  Both mandatory events fail to open and the
    branch-instructions event opens on descriptor 7: the group reports
    unavailable, yet start resets and enables descriptor 7 and stop
    disables and reads it. *)
Lemma unavailable_group_still_operates :
  let pc := snd (perf_counters_init open_branches_only) in
  fst (perf_counters_init open_branches_only) = -1 /\
  fd_instructions pc = -1 /\ fd_cycles pc = -1 /\
  perf_counters_start pc =
    [Ioctl 7 PERF_EVENT_IOC_RESET; Ioctl 7 PERF_EVENT_IOC_ENABLE] /\
  snd (perf_counters_stop read_full pc) =
    [Ioctl 7 PERF_EVENT_IOC_DISABLE; Read 7 8] /\
  branches (fst (perf_counters_stop read_full pc)) = 1007.
Proof. vm_compute. repeat split; reflexivity. Qed.

(** The same with one mandatory event only: cycles fails, instructions
    opens, and the scenario's own guard on fd_instructions lets start
    run on a group that reported unavailable. *)
Example one_mandatory_event_missing :
  let sys_open t c := if (t =? 0) && (c =? 0) then -1 else open_all t c in
  let pc := snd (perf_counters_init sys_open) in
  fst (perf_counters_init sys_open) = -1 /\
  0 <= fd_instructions pc /\
  length (perf_counters_start pc) = 10%nat.
Proof. vm_compute. repeat split; congruence. Qed.

(** C6 (as amended).  [perf_counters_init] reports the group
    unavailable (-1) exactly when the instructions or the cycles event
    failed to open, and available (0) otherwise, whatever happened to
    the other four events.  Start and stop never consult that report:
    they act on exactly the events whose descriptor is non-negative, so
    they are no-ops when no event at all is live; and an event that
    failed to open is skipped, its field reading 0 after a stop. *)
Theorem perf_group_degradation (sys_open : Z -> Z -> Z)
    (sys_read : Z -> read_reply) :
  let rc := fst (perf_counters_init sys_open) in
  let pc := snd (perf_counters_init sys_open) in
  (rc = -1 <-> (fd_of Instructions pc < 0 \/ fd_of Cycles pc < 0)) /\
  (rc = 0 <-> (0 <= fd_of Instructions pc /\ 0 <= fd_of Cycles pc)) /\
  perf_counters_start pc =
    concat (map (fun e => [Ioctl (fd_of e pc) PERF_EVENT_IOC_RESET;
                           Ioctl (fd_of e pc) PERF_EVENT_IOC_ENABLE])
                (filter (fun e => live pc e = true) all_events)) /\
  snd (perf_counters_stop sys_read pc) =
    concat (map (fun e => [Ioctl (fd_of e pc) PERF_EVENT_IOC_DISABLE;
                           Read (fd_of e pc) 8])
                (filter (fun e => live pc e = true) all_events)) /\
  ((forall e, fd_of e pc < 0) ->
     perf_counters_start pc = [] /\
     is_noop pc (perf_counters_stop sys_read pc)) /\
  (forall e, fd_of e pc < 0 ->
     value_of e (fst (perf_counters_stop sys_read pc)) = 0).
Proof.
  intros rc pc.
  assert (Hrc : rc = if (fd_instructions pc <? 0) || (fd_cycles pc <? 0)
                     then -1 else 0) by apply init_status.
  split; [|split; [|split; [|split; [|split]]]].
  - rewrite Hrc. simpl fd_of.
    destruct (fd_instructions pc <? 0) eqn:E1;
      destruct (fd_cycles pc <? 0) eqn:E2; simpl;
      try apply Z.ltb_lt in E1; try apply Z.ltb_ge in E1;
      try apply Z.ltb_lt in E2; try apply Z.ltb_ge in E2;
      split; intros H; try lia; auto; destruct H; lia.
  - rewrite Hrc. simpl fd_of.
    destruct (fd_instructions pc <? 0) eqn:E1;
      destruct (fd_cycles pc <? 0) eqn:E2; simpl;
      try apply Z.ltb_lt in E1; try apply Z.ltb_ge in E1;
      try apply Z.ltb_lt in E2; try apply Z.ltb_ge in E2;
      split; intros H; try lia; auto.
  - apply start_live_events.
  - apply stop_live_events.
  - intros Hdead. split.
    + apply start_all_dead, Hdead.
    + unfold is_noop. apply stop_all_dead, Hdead.
  - intros e He. rewrite stop_dead_value by exact He.
    apply init_values.
Qed.

(** A group in which only the last-level-cache event failed: available,
    ten system calls per start, and the llc_misses column reads 0. *)
Example llc_event_missing :
  let pc := snd (perf_counters_init open_no_llc) in
  fst (perf_counters_init open_no_llc) = 0 /\
  length (perf_counters_start pc) = 10%nat /\
  map (fun e => value_of e (fst (perf_counters_stop read_full pc))) all_events
  = [1011; 1010; 66576; 0; 1014; 1015].
Proof. vm_compute. repeat split; reflexivity. Qed.

(** *** The protocol of a live event *)

(** C7.  For every live event: start issues the reset of its counter
    immediately before the enable; stop issues the disable immediately
    before the read; every read asks for exactly 8 bytes; the value
    reported is the 8 bytes read when the read returns 8 and 0
    otherwise, in particular when it returns fewer than 8 bytes.  That
    0 is confined to the event and the iteration: the value of every
    event is decided by its own read alone, the descriptors are left
    as they were, and the next stop reports the next read. *)
Theorem live_event_protocol (sys_read sys_read' : Z -> read_reply)
    (pc : perf_counters_t) (e : hw_event) :
  0 <= fd_of e pc ->
  let fd := fd_of e pc in
  let stopped := fst (perf_counters_stop sys_read pc) in
  (exists pre post,
     perf_counters_start pc =
     pre ++ [Ioctl fd PERF_EVENT_IOC_RESET; Ioctl fd PERF_EVENT_IOC_ENABLE]
         ++ post) /\
  (exists pre post,
     snd (perf_counters_stop sys_read pc) =
     pre ++ [Ioctl fd PERF_EVENT_IOC_DISABLE; Read fd 8] ++ post) /\
  Forall reads_eight (snd (perf_counters_stop sys_read pc)) /\
  value_of e stopped =
    (if rd_ret (sys_read fd) =? 8 then rd_data (sys_read fd) else 0) /\
  (rd_ret (sys_read fd) < 8 -> value_of e stopped = 0) /\
  (forall e', 0 <= fd_of e' pc ->
     value_of e' stopped =
     (if rd_ret (sys_read (fd_of e' pc)) =? 8
      then rd_data (sys_read (fd_of e' pc)) else 0)) /\
  (forall e', fd_of e' stopped = fd_of e' pc) /\
  value_of e (fst (perf_counters_stop sys_read' stopped)) =
    (if rd_ret (sys_read' fd) =? 8 then rd_data (sys_read' fd) else 0).
Proof.
  intros Hlive fd stopped.
  assert (Hval : forall rd q e', 0 <= fd_of e' q ->
            value_of e' (fst (perf_counters_stop rd q)) =
            (if rd_ret (rd (fd_of e' q)) =? 8
             then rd_data (rd (fd_of e' q)) else 0)).
  { intros rd q e' He'. rewrite stop_value, stop_one_live by exact He'.
    reflexivity. }
  split; [|split; [|split; [|split; [|split; [|split; [|split]]]]]].
  - rewrite start_trace. unfold fd.
    destruct e; simpl in Hlive; simpl map; simpl concat;
      rewrite (start_one_live _ Hlive).
    + exists []. eexists. reflexivity.
    + exists (start_one (fd_instructions pc)). eexists. reflexivity.
    + exists (start_one (fd_instructions pc) ++ start_one (fd_cycles pc)).
      eexists. rewrite <- app_assoc. reflexivity.
    + exists (start_one (fd_instructions pc) ++ start_one (fd_cycles pc)
              ++ start_one (fd_l1_dcache_misses pc)).
      eexists. rewrite <- !app_assoc. reflexivity.
    + exists (start_one (fd_instructions pc) ++ start_one (fd_cycles pc)
              ++ start_one (fd_l1_dcache_misses pc)
              ++ start_one (fd_llc_misses pc)).
      eexists. rewrite <- !app_assoc. reflexivity.
    + exists (start_one (fd_instructions pc) ++ start_one (fd_cycles pc)
              ++ start_one (fd_l1_dcache_misses pc)
              ++ start_one (fd_llc_misses pc) ++ start_one (fd_branches pc)).
      exists []. rewrite <- !app_assoc. reflexivity.
  - rewrite stop_live_events.
    assert (Hin : e ∈ filter (fun e0 => live pc e0 = true) all_events).
    { apply list_elem_of_filter. split.
      - unfold live. apply Z.leb_le. exact Hlive.
      - destruct e; apply list_elem_of_In; simpl; auto 10. }
    apply list_elem_of_split in Hin. destruct Hin as (l1 & l2 & ->).
    rewrite map_app, concat_app. simpl.
    eexists. eexists. reflexivity.
  - rewrite stop_live_events.
    induction (filter (fun e0 => live pc e0 = true) all_events) as [|x l IH];
      simpl; [constructor|].
    constructor; [exact I|]. constructor; [reflexivity|]. exact IH.
  - apply Hval. exact Hlive.
  - intros Hshort. unfold stopped. rewrite Hval by exact Hlive. fold fd.
    destruct (rd_ret (sys_read fd) =? 8) eqn:E; [|reflexivity].
    apply Z.eqb_eq in E. lia.
  - intros e' He'. apply Hval. exact He'.
  - intros e'. apply stop_fd.
  - unfold stopped. rewrite Hval; rewrite stop_fd; [reflexivity | exact Hlive].
Qed.

(** The cycles read is cut short in one iteration and complete in the
    next: cycles reads 0 in the first record only, and the other five
    columns are what their own reads delivered. *)
Lemma live_event_protocol_witness :
  let pc := snd (perf_counters_init open_all) in
  let first := fst (perf_counters_stop read_short_cycles pc) in
  let second := fst (perf_counters_stop read_full first) in
  map (fun e => value_of e first) all_events
    = [1011; 0; 66576; 1013; 1014; 1015] /\
  map (fun e => value_of e second) all_events
    = [1011; 1010; 66576; 1013; 1014; 1015] /\
  value_of Cycles first = 0.
Proof.
  split; [vm_compute; reflexivity |].
  split; [vm_compute; reflexivity |].
  refine (proj1 (proj2 (proj2 (proj2 (proj2
    (live_event_protocol read_short_cycles read_full
       (snd (perf_counters_init open_all)) Cycles _))))) _);
    vm_compute; congruence.
Defined.

(** *** Derived columns *)

Example ipc_three_halves :
  forall pc, instructions pc = 3 -> cycles pc = 2 ->
  ipc pc = S754_finite false 6755399441055744 (-52).
Proof. intros pc Hi Hc. unfold ipc. rewrite Hi, Hc. vm_compute. reflexivity. Qed.

Example double_of_u64_max :
  double_of_u64 UINT64_MAX = S754_finite false 4503599627370496 12.
Proof. vm_compute. reflexivity. Qed.

(** C8.  For every counter panel, IPC is the double quotient of
    instructions by cycles and the branch-miss rate the double quotient
    of branch_misses by branches, and each is 0.0 whenever its
    denominator is 0. *)
Theorem derived_ratios (pc : perf_counters_t) :
  counts_in_range pc ->
  (cycles pc = 0 -> ipc pc = double_zero) /\
  (cycles pc <> 0 ->
     ipc pc = double_div (double_of_u64 (instructions pc))
                         (double_of_u64 (cycles pc))) /\
  (branches pc = 0 -> branch_miss_rate pc = double_zero) /\
  (branches pc <> 0 ->
     branch_miss_rate pc =
     double_div (double_of_u64 (branch_misses pc))
                (double_of_u64 (branches pc))).
Proof.
  intros Hrange. unfold counts_in_range in Hrange.
  rewrite Forall_forall in Hrange.
  assert (Hc : 0 <= cycles pc < two64).
  { apply (Hrange Cycles). simpl. auto 10. }
  assert (Hb : 0 <= branches pc < two64).
  { apply (Hrange Branches). simpl. auto 10. }
  unfold ipc, branch_miss_rate.
  repeat split.
  - intros ->. reflexivity.
  - intros Hne. assert (H : (0 <? cycles pc) = true) by (apply Z.ltb_lt; lia).
    rewrite H. reflexivity.
  - intros ->. reflexivity.
  - intros Hne. assert (H : (0 <? branches pc) = true) by (apply Z.ltb_lt; lia).
    rewrite H. reflexivity.
Qed.

Lemma derived_ratios_witness :
  let pc := fst (perf_counters_stop read_full
                   (snd (perf_counters_init open_branches_only))) in
  ipc pc = double_zero /\
  branch_miss_rate pc = double_div (double_of_u64 0) (double_of_u64 1007).
Proof.
  intros pc.
  assert (Hrange : counts_in_range pc).
  { unfold counts_in_range, all_events.
    repeat constructor; vm_compute; congruence. }
  destruct (derived_ratios pc Hrange) as (Hz & _ & _ & Hq).
  split.
  - apply Hz. vm_compute. reflexivity.
  - apply Hq. vm_compute. congruence.
Defined.

End PerfFacts.

(** ** Theorems: the cpulist parser *)

Module NumaFacts.
Import CLib Numa Samples.

Lemma append_assoc (a b c : string) :
  ((a ++ b) ++ c = a ++ (b ++ c))%string.
Proof. induction a as [|x a IH]; simpl; [reflexivity | rewrite IH; reflexivity]. Qed.

(** A digit is neither white space nor a sign, so an integer
    conversion starts reading at it. *)
Lemma digit_head (c : ascii) (s : string) :
  isdigit c = true ->
  skip_space (String c s) = String c s /\
  scan_sign (String c s) = (false, String c s).
Proof.
  destruct c as [[] [] [] [] [] [] [] []]; intros H;
    vm_compute in H; try discriminate H; split; reflexivity.
Qed.

Lemma digit_of_isdigit c : isdigit c = true -> exists d, digit_of c = Some d /\ 0 <= d <= 9.
Proof.
  unfold isdigit, digit_of.
  destruct ((48 <=? Z.of_nat (nat_of_ascii c)) && (Z.of_nat (nat_of_ascii c) <=? 57))
    eqn:E; [|discriminate].
  intros _. apply andb_prop in E. destruct E as [E1 E2].
  apply Z.leb_le in E1. apply Z.leb_le in E2.
  eexists. split; [reflexivity | lia].
Qed.

Lemma not_digit_of c : isdigit c = false -> digit_of c = None.
Proof. unfold isdigit. destruct (digit_of c); [discriminate | reflexivity]. Qed.

Lemma decimal_value_nonneg s : all_digits s = true -> 0 <= decimal_value s.
Proof.
  induction s as [|c s IH]; simpl; [lia|].
  intros H. apply andb_prop in H. destruct H as [Hc Hs].
  destruct (digit_of_isdigit c Hc) as (d & -> & Hd). simpl.
  specialize (IH Hs).
  assert (0 <= 10 ^ Z.of_nat (String.length s)) by (apply Z.pow_nonneg; lia).
  nia.
Qed.

(** The scanner's left-to-right accumulation yields the positional
    value of the digit string. *)
Lemma scan_digits_app (a rest : string) : forall acc,
  all_digits a = true -> stops_digits rest ->
  scan_digits (a ++ rest)%string acc =
  (acc * 10 ^ Z.of_nat (String.length a) + decimal_value a, rest).
Proof.
  induction a as [|c a IH]; intros acc Ha Hrest.
  - cbn [append String.length decimal_value]. change (Z.of_nat 0) with 0.
    rewrite Z.pow_0_r, Z.mul_1_r, Z.add_0_r.
    destruct rest as [|c r]; [reflexivity|].
    simpl in *. rewrite (not_digit_of _ Hrest). reflexivity.
  - simpl in Ha. apply andb_prop in Ha. destruct Ha as [Hc Ha].
    destruct (digit_of_isdigit c Hc) as (d & Hd & _).
    cbn [append scan_digits decimal_value String.length]. rewrite Hd.
    rewrite IH by assumption. f_equal. simpl default.
    rewrite Nat2Z.inj_succ, Z.pow_succ_r by lia. ring.
Qed.

Lemma scan_integer_number (a rest : string) :
  is_number a -> stops_digits rest ->
  scan_integer (a ++ rest)%string = Some (false, decimal_value a, rest).
Proof.
  intros [Hne Ha] Hrest. destruct a as [|c a]; [congruence|].
  assert (Hc : isdigit c = true).
  { simpl in Ha. apply andb_prop in Ha. tauto. }
  unfold scan_integer. cbn [append].
  destruct (digit_head c (a ++ rest)%string Hc) as [-> ->].
  cbn [peek]. rewrite Hc.
  change (String c (a ++ rest)%string) with (String c a ++ rest)%string.
  rewrite scan_digits_app by assumption. reflexivity.
Qed.

(** After its first entry a cpulist goes on with a comma or ends with
    the newline. *)
Lemma cpulist_text_head (first : cpu_entry) (others : list cpu_entry) :
  exists c r,
    cpulist_text first others = (entry_text first ++ String c r)%string /\
    (c = ","%char \/ c = ascii_of_nat 10).
Proof.
  destruct others as [|en others]; simpl.
  - exists (ascii_of_nat 10), EmptyString. auto.
  - exists ","%char, (cpulist_text en others). auto.
Qed.

Lemma pow2_wrap i : 0 <= i < 64 -> wrap64 (Z.shiftl 1 i) = 2 ^ i.
Proof.
  intros Hi. rewrite Z.shiftl_1_l. apply wrap64_small.
  split; [apply Z.pow_nonneg; lia|].
  unfold two64. apply Z.pow_lt_mono_r; lia.
Qed.

(** The bits the range loop sets. *)
Lemma range_loop_bits (fuel : nat) : forall i e mask n,
  0 <= i -> 64 - i <= Z.of_nat fuel -> 0 <= n ->
  Z.testbit (range_loop fuel i e mask) n =
  Z.testbit mask n || ((i <=? n) && (n <=? e) && (n <? 64)).
Proof.
  induction fuel as [|fuel IH]; intros i e mask n Hi Hfuel Hn.
  - simpl. assert (Hf : ((i <=? n) && (n <=? e) && (n <? 64)) = false).
    { destruct (Z.leb_spec i n), (Z.leb_spec n e), (Z.ltb_spec n 64);
        simpl; try reflexivity; lia. }
    rewrite Hf, orb_false_r. reflexivity.
  - cbn [range_loop].
    destruct (Z.leb_spec i e) as [Hie|Hie];
      destruct (Z.ltb_spec i 64) as [Hi64|Hi64]; cbn [andb].
    + rewrite IH by lia. rewrite Z.lor_spec, pow2_wrap by lia.
      rewrite Z.pow2_bits_eqb by lia.
      destruct (Z.testbit mask n); simpl; [reflexivity|].
      destruct (Z.eqb_spec i n), (Z.leb_spec (i + 1) n), (Z.leb_spec i n),
        (Z.leb_spec n e), (Z.ltb_spec n 64); simpl; try reflexivity; lia.
    + destruct (Z.leb_spec i n), (Z.leb_spec n e), (Z.ltb_spec n 64);
        simpl; rewrite ?orb_false_r; try reflexivity; lia.
    + destruct (Z.leb_spec i n), (Z.leb_spec n e), (Z.ltb_spec n 64);
        simpl; rewrite ?orb_false_r; try reflexivity; lia.
    + destruct (Z.leb_spec i n), (Z.leb_spec n e), (Z.ltb_spec n 64);
        simpl; rewrite ?orb_false_r; try reflexivity; lia.
Qed.

(** *** What the parser returns *)

Example cpulist_single_range :
  numa_node_to_cpus (Some [("0-3" ++ nl)%string]) = 15.
Proof. vm_compute. reflexivity. Qed.

Example cpulist_singleton :
  numa_node_to_cpus (Some [("5" ++ nl)%string]) = 32.
Proof. vm_compute. reflexivity. Qed.

Example cpulist_unopened : numa_node_to_cpus None = 0.
Proof. reflexivity. Qed.

(** C5 (counterexample).  Node cpulist "0-1,4-5": CPU 4 belongs to the
    second range, and the mask returned is 3 (CPUs 0 and 1): bit 4 is
    clear. *)
Lemma second_range_dropped :
  let text := cpulist_text (Range "0" "1") [Range "4" "5"] in
  text = ("0-1,4-5" ++ nl)%string /\
  entry_ok (Range "4" "5") /\
  entry_has (Range "4" "5") 4 /\
  numa_node_to_cpus (Some [text]) = 3 /\
  Z.testbit (numa_node_to_cpus (Some [text])) 4 = false.
Proof.
  vm_compute. repeat split; try reflexivity; congruence.
Qed.

(** C5 (as amended).  For every node whose cpulist file holds
    comma-separated ranges "A-B" or singletons "A",
    [numa_node_to_cpus] returns the mask of the CPUs below 64 of the
    first entry only: bit [i] is set exactly when CPU [i] belongs to
    the first range or singleton and [i < 64]; whatever follows the
    first entry has no effect on the mask. *)
Theorem first_entry_only (first : cpu_entry) (others : list cpu_entry)
    (i : Z) :
  entry_ok first -> entry_fits_int first ->
  (Z.testbit (numa_node_to_cpus (Some [cpulist_text first others])) i = true
   <-> (entry_has first i /\ i < 64)).
Proof.
  intros Hok _.
  destruct (cpulist_text_head first others) as (c & r & -> & Hc).
  assert (Hstop : stops_digits (String c r)).
  { destruct Hc as [-> | ->]; reflexivity. }
  destruct first as [a | a b]; cbn [entry_text entry_ok entry_has] in *.
  - (* a singleton *)
    pose proof (decimal_value_nonneg a (proj2 Hok)) as Hva.
    assert (H2 : sscanf_d_dash_d (a ++ String c r)%string
                 = Stored1 (decimal_value a)).
    { unfold sscanf_d_dash_d. rewrite scan_integer_number by assumption.
      destruct Hc as [-> | ->]; reflexivity. }
    assert (H1 : sscanf_d (a ++ String c r)%string = Some (decimal_value a)).
    { unfold sscanf_d. rewrite scan_integer_number by assumption.
      reflexivity. }
    unfold numa_node_to_cpus. rewrite H2, H1.
    destruct (Z.ltb_spec (decimal_value a) 64) as [Hlt|Hge].
    + rewrite Z.lor_0_l, pow2_wrap, Z.pow2_bits_eqb by lia.
      destruct (Z.eqb_spec (decimal_value a) i); split; intros H;
        try lia; try discriminate; auto.
    + rewrite Z.bits_0. split; intros H; [discriminate | lia].
  - (* a range *)
    destruct Hok as [Ha Hb].
    pose proof (decimal_value_nonneg a (proj2 Ha)) as Hva.
    rewrite append_assoc. rewrite append_assoc.
    change ("-" ++ b ++ String c r)%string
      with (String "-"%char (b ++ String c r)).
    assert (H2 : sscanf_d_dash_d (a ++ String "-"%char (b ++ String c r))%string
                 = Stored2 (decimal_value a) (decimal_value b)).
    { unfold sscanf_d_dash_d.
      rewrite scan_integer_number by (assumption || reflexivity).
      rewrite scan_integer_number by assumption. reflexivity. }
    unfold numa_node_to_cpus. rewrite H2.
    destruct (Z.ltb_spec i 0) as [Hneg|Hpos].
    + rewrite Z.testbit_neg_r by exact Hneg.
      split; intros H; [discriminate | lia].
    + rewrite range_loop_bits by lia. rewrite Z.bits_0. cbn [orb].
      destruct (Z.leb_spec (decimal_value a) i),
        (Z.leb_spec i (decimal_value b)), (Z.ltb_spec i 64); simpl;
        split; intros Hx; try discriminate; try lia; auto.
Qed.

Lemma first_entry_only_witness :
  Z.testbit
    (numa_node_to_cpus (Some [cpulist_text (Range "0" "1") [Range "4" "5"]]))
    1 = true.
Proof.
  apply (first_entry_only (Range "0" "1") [Range "4" "5"] 1).
  - vm_compute. repeat split; congruence.
  - vm_compute. split; congruence.
  - vm_compute. repeat split; congruence.
Defined.

End NumaFacts.

(** ** Theorems: memory_random.c *)

Module MemoryRandomFacts.
Import MemoryRandom Samples.

Local Open Scope nat_scope.

Lemma at_pos_lookup (a : list Z) (i : nat) (x : Z) :
  a !! i = Some x -> at_pos a i = x.
Proof. intros H. unfold at_pos. rewrite H. reflexivity. Qed.

Lemma lookup_at_pos (a : list Z) (i : nat) :
  i < length a -> a !! i = Some (at_pos a i).
Proof.
  intros H. destruct (lookup_lt_is_Some_2 a i H) as [x Hx].
  rewrite (at_pos_lookup _ _ _ Hx). exact Hx.
Qed.

(** *** The identity fill *)

Lemma fill_loop_spec (todo : nat) : forall i indices,
  i + todo <= length indices ->
  fill_loop todo i indices =
  take i indices ++ (Z.of_nat <$> seq i todo) ++ drop (i + todo) indices.
Proof.
  induction todo as [|todo IH]; intros i indices Hlen.
  - simpl. rewrite Nat.add_0_r, take_drop. reflexivity.
  - cbn [fill_loop]. rewrite IH by (rewrite length_insert; lia).
    rewrite (take_S_r _ _ (Z.of_nat i))
      by (apply list_lookup_insert_eq; lia).
    rewrite take_insert_ge by lia.
    rewrite drop_insert_lt by lia.
    rewrite <- app_assoc. cbn [seq fmap list_fmap app].
    replace (S i + todo) with (i + S todo) by lia. reflexivity.
Qed.

Lemma fill_loop_all (count : nat) (indices : list Z) :
  length indices = count -> fill_loop count 0 indices = slots count.
Proof.
  intros Hlen. rewrite fill_loop_spec by lia.
  rewrite take_0, drop_ge by lia. simpl. apply app_nil_r.
Qed.

(** *** The swaps keep the content *)

Lemma replace_one_perm (l : list Z) : forall j y a,
  l !! j = Some y -> y :: <[j := a]> l ≡ₚ a :: l.
Proof.
  induction l as [|b l IH]; intros j y a Hj; [discriminate|].
  destruct j as [|j]; simpl in *.
  - injection Hj as ->. apply perm_swap.
  - rewrite (perm_swap b y). rewrite (IH _ _ _ Hj). apply perm_swap.
Qed.

Lemma swap_perm (l : list Z) : forall i j x y,
  l !! i = Some x -> l !! j = Some y ->
  <[j := x]> (<[i := y]> l) ≡ₚ l.
Proof.
  induction l as [|a l IH]; intros i j x y Hi Hj; [discriminate|].
  destruct i as [|i], j as [|j]; simpl in *.
  - injection Hi as ->. injection Hj as ->. reflexivity.
  - injection Hi as ->. apply replace_one_perm. exact Hj.
  - injection Hj as ->. apply replace_one_perm. exact Hi.
  - rewrite (IH _ _ _ _ Hi Hj). reflexivity.
Qed.

Section Shuffle.

Variable rand_seq : nat -> Z.

Lemma draw_bound (k i : nat) :
  Z.to_nat ((wrap64 (rand_seq k) mod (Z.of_nat i + 1))%Z) <= i.
Proof.
  pose proof (Z.mod_pos_bound (wrap64 (rand_seq k)) (Z.of_nat i + 1)). lia.
Qed.

Lemma swap_loop_perm (i : nat) : forall k indices,
  i < length indices -> swap_loop rand_seq i k indices ≡ₚ indices.
Proof.
  induction i as [|i IH]; intros k indices Hlen; [reflexivity|].
  cbn [swap_loop].
  set (j := Z.to_nat ((wrap64 (rand_seq k) mod (Z.of_nat (S i) + 1))%Z)).
  assert (Hj : j <= S i) by apply draw_bound.
  rewrite IH by (rewrite !length_insert; lia).
  apply swap_perm; apply lookup_at_pos; lia.
Qed.

(** The shuffle leaves a permutation of the slot numbers. *)
Lemma shuffle_indices_perm (block : list Z) (count : nat) :
  1 <= count -> length block = count ->
  shuffle_indices rand_seq block count ≡ₚ slots count.
Proof.
  intros Hpos Hlen. unfold shuffle_indices.
  rewrite fill_loop_all by exact Hlen.
  apply swap_loop_perm. rewrite length_fmap, length_seq. lia.
Qed.

End Shuffle.

(** *** The ring written into the buffer *)

Section Chain.

(** [indices] is any permutation of the [count] slot numbers. *)
Variable count : nat.
Variable indices : list Z.
Hypothesis count_pos : 1 <= count.
Hypothesis indices_perm : indices ≡ₚ slots count.

Lemma indices_length : length indices = count.
Proof.
  rewrite (Permutation_length indices_perm), length_fmap, length_seq.
  reflexivity.
Qed.

Lemma indices_NoDup : NoDup indices.
Proof.
  rewrite indices_perm. apply NoDup_fmap_2; [|apply NoDup_seq].
  intros x y. apply Nat2Z.inj.
Qed.

Lemma indices_elem (v : Z) :
  v ∈ indices <-> exists n, v = Z.of_nat n /\ n < count.
Proof.
  rewrite indices_perm, list_elem_of_fmap. split.
  - intros (n & -> & Hn). exists n. split; [reflexivity|].
    apply elem_of_seq in Hn. lia.
  - intros (n & -> & Hn). exists n. split; [reflexivity|].
    apply elem_of_seq. lia.
Qed.

Lemma slot_at_spec (k : nat) :
  k < count ->
  slot_at indices k < count /\ indices !! k = Some (Z.of_nat (slot_at indices k)).
Proof.
  intros Hk. pose proof indices_length as Hlen.
  assert (Hl : indices !! k = Some (at_pos indices k))
    by (apply lookup_at_pos; lia).
  assert (Hin : at_pos indices k ∈ indices)
    by (apply list_elem_of_lookup; eauto).
  apply indices_elem in Hin. destruct Hin as (n & Hn & Hlt).
  unfold slot_at. rewrite Hn, Nat2Z.id. split; [exact Hlt|].
  rewrite Hl, Hn. reflexivity.
Qed.

Lemma slot_at_inj (k k' : nat) :
  k < count -> k' < count -> slot_at indices k = slot_at indices k' -> k = k'.
Proof.
  intros Hk Hk' Heq.
  destruct (slot_at_spec k Hk) as [_ H1].
  destruct (slot_at_spec k' Hk') as [_ H2].
  rewrite Heq in H1. exact (NoDup_lookup _ _ _ _ indices_NoDup H1 H2).
Qed.

(** What the linking loop has written after [todo] rounds from
    position [i], and what it has left alone. *)
Lemma link_loop_spec (todo : nat) : forall i buffer,
  length buffer = count -> i + todo < count ->
  let buffer' := link_loop todo i indices buffer in
  length buffer' = count /\
  (forall k, i <= k < i + todo ->
     buffer' !! slot_at indices k = Some (at_pos indices (S k))) /\
  (forall pos, (forall k, i <= k < i + todo -> pos <> slot_at indices k) ->
     buffer' !! pos = buffer !! pos).
Proof.
  induction todo as [|todo IH]; intros i buffer Hlen Hi; cbn [link_loop].
  - repeat split; [exact Hlen | intros; lia].
  - fold (slot_at indices i).
    destruct (IH (S i) (<[slot_at indices i := at_pos indices (S i)]> buffer))
      as (Hl & Hw & Hf); [rewrite length_insert; exact Hlen | lia |].
    split; [exact Hl|]. split.
    + intros k Hk. destruct (decide (k = i)) as [->|Hne].
      * rewrite Hf.
        -- apply list_lookup_insert_eq.
           destruct (slot_at_spec i) as [Hs _]; lia.
        -- intros k' Hk' Heq. apply slot_at_inj in Heq; lia.
      * apply Hw. lia.
    + intros pos Hpos. rewrite Hf by (intros k Hk; apply Hpos; lia).
      apply list_lookup_insert_ne. intros Heq. apply (Hpos i); [lia|].
      symmetry. exact Heq.
Qed.

(** In the finished buffer every slot holds its successor on the
    ring. *)
Lemma build_chain_step (buffer : list Z) (k : nat) :
  length buffer = count -> k < count ->
  at_pos (build_chain indices buffer count) (slot_at indices k)
  = at_pos indices (S k mod count).
Proof.
  intros Hlen Hk. unfold build_chain. fold (slot_at indices (count - 1)).
  destruct (link_loop_spec (count - 1) 0 buffer Hlen) as (Hl & Hw & _);
    [lia|].
  apply at_pos_lookup.
  destruct (decide (k = count - 1)) as [->|Hne].
  - replace (S (count - 1)) with count by lia.
    rewrite Nat.Div0.mod_same.
    apply list_lookup_insert_eq. rewrite Hl.
    destruct (slot_at_spec (count - 1)) as [Hs _]; lia.
  - rewrite Nat.mod_small by lia.
    rewrite list_lookup_insert_ne.
    + apply Hw. lia.
    + intros Heq. apply slot_at_inj in Heq; lia.
Qed.

Lemma build_chain_length (buffer : list Z) :
  length buffer = count ->
  length (build_chain indices buffer count) = count.
Proof.
  intros Hlen. unfold build_chain. rewrite length_insert.
  destruct (link_loop_spec (count - 1) 0 buffer Hlen) as (Hl & _); [lia|].
  exact Hl.
Qed.

(** The chase walks [indices] cyclically. *)
Lemma chase_visited_spec (buffer : list Z) (todo : nat) : forall k,
  length buffer = count -> k < count ->
  chase_visited todo (build_chain indices buffer count) (at_pos indices k)
  = (fun h => at_pos indices ((k + h) mod count)) <$> seq 0 todo.
Proof.
  induction todo as [|todo IH]; intros k Hlen Hk; [reflexivity|].
  cbn [chase_visited seq fmap list_fmap].
  rewrite Nat.add_0_r, Nat.mod_small by exact Hk. f_equal.
  fold (slot_at indices k). rewrite build_chain_step by assumption.
  rewrite IH by (try assumption; apply Nat.mod_upper_bound; lia).
  rewrite <- fmap_S_seq, <- list_fmap_compose.
  apply list_fmap_ext. intros _ h _. simpl. f_equal.
  rewrite Nat.Div0.add_mod_idemp_l. f_equal. lia.
Qed.

Lemma chase_loop_spec (buffer : list Z) (todo : nat) : forall k,
  length buffer = count -> k < count ->
  chase_loop todo (build_chain indices buffer count) (at_pos indices k)
  = at_pos indices ((k + todo) mod count).
Proof.
  induction todo as [|todo IH]; intros k Hlen Hk.
  - simpl. rewrite Nat.add_0_r, Nat.mod_small by exact Hk. reflexivity.
  - cbn [chase_loop]. fold (slot_at indices k).
    rewrite build_chain_step by assumption.
    rewrite IH by (try assumption; apply Nat.mod_upper_bound; lia).
    rewrite Nat.Div0.add_mod_idemp_l. f_equal. f_equal. lia.
Qed.

(** Slot 0, where the chase starts, sits somewhere on the ring. *)
Lemma start_on_ring : exists k0, k0 < count /\ at_pos indices k0 = 0%Z.
Proof.
  assert (Hin : 0%Z ∈ indices).
  { apply indices_elem. exists 0. split; [reflexivity | lia]. }
  apply list_elem_of_lookup in Hin. destruct Hin as (k0 & Hk0).
  exists k0. split.
  - rewrite <- indices_length. eapply lookup_lt_Some. exact Hk0.
  - apply at_pos_lookup. exact Hk0.
Qed.

Lemma rotate_nat_add_mod (b o len : nat) :
  rotate_nat_add b o len = (b + o) mod len.
Proof.
  unfold rotate_nat_add.
  rewrite <- Nat2Z.inj_add, <- Nat2Z.inj_mod, Nat2Z.id. reflexivity.
Qed.

(** A full turn reads the slots in the order of [indices], rotated to
    start at slot 0. *)
Lemma full_turn_is_rotation (buffer : list Z) :
  length buffer = count ->
  exists k0,
    chase_visited count (build_chain indices buffer count) 0%Z
    = rotate k0 indices.
Proof.
  intros Hlen. destruct start_on_ring as (k0 & Hk0 & H0).
  exists k0. rewrite <- H0, chase_visited_spec by assumption.
  pose proof indices_length as Hil.
  apply list_eq. intros h.
  rewrite list_lookup_fmap.
  destruct (decide (h < count)) as [Hh|Hh].
  - rewrite lookup_seq_lt by exact Hh. simpl.
    rewrite lookup_rotate_r by lia.
    rewrite Hil, rotate_nat_add_mod.
    symmetry. apply lookup_at_pos.
    rewrite Hil. apply Nat.mod_upper_bound. lia.
  - rewrite lookup_seq_ge by lia. simpl. symmetry.
    apply lookup_ge_None. rewrite length_rotate. lia.
Qed.

Lemma rotate_perm (n : nat) (l : list Z) : rotate n l ≡ₚ l.
Proof.
  unfold rotate. rewrite Permutation_app_comm, take_drop. reflexivity.
Qed.

Lemma full_turn_perm (buffer : list Z) :
  length buffer = count ->
  chase_visited count (build_chain indices buffer count) 0%Z ≡ₚ slots count.
Proof.
  intros Hlen. destruct (full_turn_is_rotation buffer Hlen) as (k0 & ->).
  rewrite rotate_perm. exact indices_perm.
Qed.

Lemma full_turn_returns (buffer : list Z) :
  length buffer = count ->
  chase_loop count (build_chain indices buffer count) 0%Z = 0%Z.
Proof.
  intros Hlen. destruct start_on_ring as (k0 & Hk0 & H0).
  rewrite <- H0 at 1. rewrite chase_loop_spec by assumption.
  replace (k0 + count) with (k0 + 1 * count) by lia.
  rewrite Nat.Div0.mod_add, Nat.mod_small by exact Hk0. exact H0.
Qed.

End Chain.

(** *** The pointer-chasing kernel *)

Example chase_four_slots :
  let r := memory_random_chase rand_sample (Some block_4) buffer_4 32 4 in
  shuffle_indices rand_sample block_4 4 = [0; 2; 1; 3]%Z /\
  chase_buffer r = [2; 3; 1; 0]%Z /\
  chase_visited 4 (chase_buffer r) 0 = [0; 2; 1; 3]%Z /\
  chase_ret r = 0%Z.
Proof. vm_compute. repeat split; reflexivity. Qed.

(** C9.  For every buffer of N slots (N >= 1) prepared by the
    pointer-chasing kernel, whatever the random draws and the former
    content of the buffer, following the chain for N hops from the
    initial index 0 visits N distinct slot indices: the slots read are
    a permutation of 0 .. N-1, and the N-th hop is back at the start. *)
Theorem chase_visits_every_slot (rand_seq : nat -> Z)
    (block buffer : list Z) (size iterations : Z) :
  let N := Z.to_nat (size / 8) in
  1 <= N -> length block = N -> length buffer = N ->
  let prepared :=
    chase_buffer
      (memory_random_chase rand_seq (Some block) buffer size iterations) in
  let visited := chase_visited N prepared 0%Z in
  length visited = N /\
  NoDup visited /\
  visited ≡ₚ slots N /\
  (forall v, v ∈ visited <-> (0 <= v < Z.of_nat N)%Z) /\
  chase_loop N prepared 0%Z = 0%Z.
Proof.
  intros N Hpos Hblock Hbuffer prepared visited.
  pose proof (shuffle_indices_perm rand_seq block N Hpos Hblock) as Hperm.
  assert (Hv : visited ≡ₚ slots N).
  { unfold visited, prepared, memory_random_chase. cbn [chase_buffer].
    fold N. apply full_turn_perm; assumption. }
  split; [|split; [|split; [|split]]].
  - rewrite (Permutation_length Hv), length_fmap, length_seq. reflexivity.
  - rewrite Hv. apply NoDup_fmap_2; [|apply NoDup_seq].
    intros x y. apply Nat2Z.inj.
  - exact Hv.
  - intros v. rewrite Hv, list_elem_of_fmap. split.
    + intros (n & -> & Hn). apply elem_of_seq in Hn. lia.
    + intros Hrange. exists (Z.to_nat v). split; [lia|].
      apply elem_of_seq. lia.
  - unfold prepared, memory_random_chase. cbn [chase_buffer]. fold N.
    apply full_turn_returns; assumption.
Qed.

Lemma chase_visits_every_slot_witness :
  NoDup (chase_visited 4
           (chase_buffer
              (memory_random_chase rand_sample (Some block_4) buffer_4 32 4))
           0%Z).
Proof.
  refine (proj1 (proj2
    (chase_visits_every_slot rand_sample block_4 buffer_4 32 4 _ _ _)));
    vm_compute; first [reflexivity | lia | repeat constructor].
Defined.

End MemoryRandomFacts.

(** ** Theorems: the measured region of the NUMA-locality scenario *)

Module NumaLocalityFacts.
Import MemoryRandom NumaLocality.

Lemma chase_request (rand_seq : nat -> Z) (fresh : option (list Z))
    (buffer : list Z) (size iterations : Z) :
  exists rest,
    chase_effects (memory_random_chase rand_seq fresh buffer size iterations)
    = Malloc (wrap64 (Z.of_nat (Z.to_nat (size / 8)) * 8)) :: rest /\
    Forall (fun x => x = Free) rest.
Proof.
  unfold memory_random_chase. destruct fresh as [block|]; cbn [chase_effects].
  - exists [Free]. split; [reflexivity | repeat constructor].
  - exists []. split; [reflexivity | constructor].
Qed.

Lemma until_finish_frees (rest tail : list effect) :
  Forall (fun x => x = Free) rest ->
  until_finish (rest ++ MetricsFinish :: tail) = rest.
Proof.
  induction 1 as [|x rest -> _ IH]; simpl; [reflexivity|].
  rewrite IH. reflexivity.
Qed.

(** C3 (the code departs from the claim).  In every run of the
    measured loop of the NUMA-locality scenario the pointer-chasing
    kernel, called between [metrics_init] and [metrics_finish],
    requests the 64 MiB index array from [malloc]: the allocation is
    the first effect of the measured region. *)
Theorem measured_region_allocates (rand_seq : nat -> Z)
    (fresh : option (list Z)) (local_buffer : list Z) :
  let region := measured_region (run_effects rand_seq fresh local_buffer) in
  head region = Some (Malloc 67108864) /\
  existsb is_malloc region = true.
Proof.
  intros region. unfold region, run_effects.
  destruct (chase_request rand_seq fresh local_buffer BUFFER_SIZE ITERATIONS)
    as (rest & -> & Hrest).
  cbn [app measured_region until_finish].
  change ([MetricsFinish; MetricsPrintCsv])
    with (MetricsFinish :: [MetricsPrintCsv]).
  rewrite until_finish_frees by exact Hrest.
  assert (Hsize : wrap64 (Z.of_nat (Z.to_nat (BUFFER_SIZE / 8)) * 8)
                  = 67108864%Z).
  { rewrite Z2Nat.id by (vm_compute; congruence). vm_compute. reflexivity. }
  rewrite Hsize. split; reflexivity.
Qed.

End NumaLocalityFacts.

(** ** Theorems: the NUMA allocator *)

Module NumaAllocFacts.
Import NumaAlloc.

(** The counting loop stops at the first missing node directory. *)
Lemma count_loop_spec (w : os) (todo : nat) : forall i count,
  let c := count_loop w todo i count in
  count <= c <= count + Z.of_nat todo /\
  (forall k, 0 <= k < c - count -> node_exists w (i + k) = true) /\
  (c - count < Z.of_nat todo -> node_exists w (i + (c - count)) = false).
Proof.
  induction todo as [|todo IH]; intros i count; cbn [count_loop].
  - cbv zeta. repeat split; intros; lia.
  - destruct (node_exists w i) eqn:Hi.
    + specialize (IH (i + 1) (count + 1)). cbv zeta in IH.
      destruct IH as (Hr & Hall & Hstop).
      set (c := count_loop w todo (i + 1) (count + 1)) in *.
      cbv zeta. repeat split; try lia.
      * intros k Hk. destruct (Z.eq_dec k 0) as [->|Hne].
        -- rewrite Z.add_0_r. exact Hi.
        -- replace (i + k) with (i + 1 + (k - 1)) by lia. apply Hall. lia.
      * intros Hlt. replace (i + (c - count)) with (i + 1 + (c - (count + 1)))
          by lia. apply Hstop. lia.
    + cbv zeta. repeat split; try lia.
      intros _. replace (i + (count - count)) with i by lia. exact Hi.
Qed.

Lemma first_query (w : os) :
  numa_get_node_count w UNCACHED =
  (if 0 <? count_loop w NUMA_MAXNODES 0 0
   then count_loop w NUMA_MAXNODES 0 0 else -1,
   if 0 <? count_loop w NUMA_MAXNODES 0 0
   then count_loop w NUMA_MAXNODES 0 0 else -1).
Proof. reflexivity. Qed.

(** X1.  A first query of the node count returns -1 when node 0 is
    missing; otherwise it returns the number [c] of node directories
    present in a row from node 0, between 1 and 256: nodes 0 .. c-1
    exist and, below the limit of 256, node [c] does not.  It never
    returns 0 or the "uncached" sentinel. *)
Theorem node_count_meaning (w : os) :
  let c := fst (numa_get_node_count w UNCACHED) in
  (c = -1 /\ node_exists w 0 = false) \/
  (1 <= c <= 256 /\
   (forall i, 0 <= i < c -> node_exists w i = true) /\
   (c < 256 -> node_exists w c = false)).
Proof.
  rewrite first_query. cbn [fst]. cbv zeta.
  pose proof (count_loop_spec w NUMA_MAXNODES 0 0) as H. cbv zeta in H.
  destruct H as (Hr & Hall & Hstop).
  set (count := count_loop w NUMA_MAXNODES 0 0) in *.
  change (Z.of_nat NUMA_MAXNODES) with 256 in *.
  destruct (Z.ltb_spec 0 count) as [Hpos|Hzero].
  - right. split; [lia|]. split.
    + intros i Hi. apply (Hall i). lia.
    + intros Hlt. replace count with (0 + (count - 0)) at 1 by lia.
      apply Hstop. lia.
  - left. split; [reflexivity|].
    assert (count = 0) as Hc by lia. rewrite Hc in Hstop.
    apply (Hstop ltac:(lia)).
Qed.

Lemma node_count_cached (w : os) (cached : Z) :
  snd (numa_get_node_count w cached) <> UNCACHED /\
  fst (numa_get_node_count w cached) = snd (numa_get_node_count w cached).
Proof.
  unfold numa_get_node_count.
  destruct (Z.eqb_spec cached UNCACHED) as [->|Hne]; cbn [negb fst snd].
  - pose proof (count_loop_spec w NUMA_MAXNODES 0 0) as H. cbv zeta in H.
    destruct H as (Hr & _).
    destruct (0 <? count_loop w NUMA_MAXNODES 0 0) eqn:E;
      [apply Z.ltb_lt in E|]; unfold UNCACHED; split; try reflexivity; lia.
  - split; [exact Hne | reflexivity].
Qed.

Lemma node_count_is_cached_aux (w w' : os) (cached : Z) :
  numa_get_node_count w' (snd (numa_get_node_count w cached))
  = (fst (numa_get_node_count w cached), snd (numa_get_node_count w cached)).
Proof.
  destruct (node_count_cached w cached) as [Hne Heq].
  unfold numa_get_node_count at 1.
  destruct (Z.eqb_spec (snd (numa_get_node_count w cached)) UNCACHED)
    as [E|_]; [contradiction|].
  cbn [negb]. rewrite Heq. reflexivity.
Qed.

(** X2.  The node count is computed once: whatever the cache held
    before, a second query returns what the first returned and leaves
    the cache as it is, even if the node directories changed in
    between. *)
Theorem node_count_is_cached (w w' : os) (cached : Z) :
  let first := numa_get_node_count w cached in
  numa_get_node_count w' (snd first) = (fst first, snd first).
Proof. intros first. apply node_count_is_cached_aux. Qed.

(** *** Which release matches which allocation *)

Lemma alloc_on_node_cache (w : os) (cached size node : Z) :
  snd (fst (numa_alloc_on_node w cached size node))
  = snd (numa_get_node_count w cached).
Proof.
  unfold numa_alloc_on_node.
  destruct (numa_get_node_count w cached) as [n st]. cbn [snd].
  destruct (n <? 2); [reflexivity|].
  destruct ((node <? 0) || (n <=? node)); [reflexivity|].
  destruct (os_mmap w size); [|reflexivity].
  match goal with |- context [if ?c then _ else _] => destruct c end;
    reflexivity.
Qed.

Lemma alloc_on_node_path (w : os) (cached size node : Z) :
  let r := numa_alloc_on_node w cached size node in
  let n := fst (numa_get_node_count w cached) in
  (n < 2 /\ snd r = [CallMalloc size]) \/
  (2 <= n /\ fst (fst r) = 0 /\ existsb is_mmap_call (snd r) = false) \/
  (2 <= n /\ existsb is_mmap_call (snd r) = true).
Proof.
  unfold numa_alloc_on_node.
  destruct (numa_get_node_count w cached) as [n st]. cbn [fst snd].
  destruct (Z.ltb_spec n 2); [left; auto|]. right.
  destruct ((node <? 0) || (n <=? node)); [left; auto|].
  destruct (os_mmap w size) as [ptr|]; [|right; auto].
  right. match goal with |- context [if ?c then _ else _] => destruct c end;
    auto.
Qed.

(** X3.  A block obtained from [numa_alloc_on_node] and handed to
    [numa_free] is released the way it was obtained: by [munmap] with
    the same size when it was mapped, by [free] when it came from
    [malloc].  The cached node count makes this hold even if the node
    directories change between the two calls. *)
Theorem free_matches_alloc (w w' : os) (cached size node : Z) :
  let r := numa_alloc_on_node w cached size node in
  let ptr := fst (fst r) in
  let cached' := snd (fst r) in
  ptr <> 0 ->
  snd (numa_free w' cached' ptr size) =
  (if existsb is_mmap_call (snd r) then [CallMunmap ptr size]
   else [CallFree ptr]).
Proof.
  intros r ptr cached' Hptr.
  assert (Hst : cached' = snd (numa_get_node_count w cached))
    by apply alloc_on_node_cache.
  pose proof (node_count_is_cached_aux w w' cached) as Hq.
  unfold numa_free. destruct (Z.eqb_spec ptr 0) as [|_]; [contradiction|].
  rewrite Hst, Hq. 
  destruct (alloc_on_node_path w cached size node)
    as [(Hn & Htr) | [(Hn & Hz & _) | (Hn & Htr)]];
    fold r in Htr || fold r in Hz.
  - rewrite Htr. cbn [existsb is_mmap_call orb].
    destruct (Z.leb_spec 2 (fst (numa_get_node_count w cached))); [lia|].
    reflexivity.
  - fold ptr in Hz. contradiction.
  - rewrite Htr.
    destruct (Z.leb_spec 2 (fst (numa_get_node_count w cached))); [|lia].
    match goal with |- context [if ?c then _ else _] => destruct c end;
      reflexivity.
Qed.

Lemma free_matches_alloc_witness :
  snd (numa_free NumaSamples.no_nodes 2 8192 4096) = [CallMunmap 8192 4096].
Proof.
  exact (free_matches_alloc NumaSamples.two_nodes NumaSamples.no_nodes
           UNCACHED 4096 1 ltac:(vm_compute; congruence)).
Defined.

(** *** The node mask handed to mbind *)

Lemma word_at_insert (mask : list Z) (i j : nat) (x : Z) :
  (i < length mask)%nat ->
  word_at (<[i := x]> mask) j = if decide (i = j) then x else word_at mask j.
Proof.
  intros Hi. unfold word_at. destruct (decide (i = j)) as [->|Hne].
  - rewrite list_lookup_insert_eq by exact Hi. reflexivity.
  - rewrite list_lookup_insert_ne by exact Hne. reflexivity.
Qed.

Lemma word_at_zero (n : Z) (j : nat) : word_at (nodemask_zero n) j = 0.
Proof.
  unfold word_at, nodemask_zero.
  destruct (replicate _ 0 !! j) as [x|] eqn:E; [|reflexivity].
  apply lookup_replicate in E. destruct E as [-> _]. reflexivity.
Qed.

Lemma nodemask_zero_length (n : Z) :
  0 <= n -> n <= 64 * Z.of_nat (length (nodemask_zero n)).
Proof.
  intros Hn. unfold nodemask_zero, BITS_PER_LONG.
  rewrite length_replicate, Z2Nat.id by (apply Z.div_pos; lia).
  pose proof (Z.div_mod (n + 64 - 1) 64 ltac:(lia)).
  pose proof (Z.mod_pos_bound (n + 64 - 1) 64 ltac:(lia)). lia.
Qed.

(** Setting bit [i] of a mask sets that bit and no other. *)
Lemma set_bit_spec (mask : list Z) (i n : Z) :
  0 <= i < 64 * Z.of_nat (length mask) -> 0 <= n ->
  let word := Z.to_nat (i / BITS_PER_LONG) in
  mask_bit (<[word := Z.lor (word_at mask word)
                        (wrap64 (Z.shiftl 1 (i mod BITS_PER_LONG)))]> mask) n
  = mask_bit mask n || (n =? i).
Proof.
  intros Hi Hn word. unfold mask_bit, BITS_PER_LONG in *.
  pose proof (Z.div_mod i 64 ltac:(lia)) as Hdi.
  pose proof (Z.mod_pos_bound i 64 ltac:(lia)) as Hmi.
  pose proof (Z.div_mod n 64 ltac:(lia)) as Hdn.
  pose proof (Z.mod_pos_bound n 64 ltac:(lia)) as Hmn.
  assert (0 <= i / 64) by (apply Z.div_pos; lia).
  assert (0 <= n / 64) by (apply Z.div_pos; lia).
  rewrite word_at_insert by (unfold word; lia).
  destruct (decide (word = Z.to_nat (n / 64))) as [Heq|Hne].
  - assert (i / 64 = n / 64) as Hw by (unfold word in Heq; lia).
    rewrite Z.lor_spec, <- Heq.
    rewrite NumaFacts.pow2_wrap by lia.
    rewrite Z.pow2_bits_eqb by lia.
    f_equal. destruct (Z.eqb_spec (i mod 64) (n mod 64)),
      (Z.eqb_spec n i); try reflexivity; lia.
  - assert (i / 64 <> n / 64) as Hw by (unfold word in Hne; lia).
    destruct (Z.eqb_spec n i) as [->|_]; [contradiction|].
    rewrite orb_false_r. reflexivity.
Qed.

Lemma mask_bit_zero (c n : Z) : mask_bit (nodemask_zero c) n = false.
Proof. unfold mask_bit. rewrite word_at_zero. apply Z.bits_0. Qed.

(** X4.  Whenever [numa_alloc_on_node] asks the kernel to bind memory,
    the system has at least two nodes, the requested node is one of
    them, the region bound is the region returned (with its full
    size, strictly and moving pages), and the node mask holds the
    requested node and no other. *)
Theorem bind_names_requested_node (w : os) (cached size node : Z)
    (ptr' size' mode maxnode flags : Z) (nodemask : list Z) :
  let r := numa_alloc_on_node w cached size node in
  let n := fst (numa_get_node_count w cached) in
  In (CallMbind ptr' size' mode nodemask maxnode flags) (snd r) ->
  2 <= n /\ 0 <= node < n /\
  ptr' = fst (fst r) /\ size' = size /\ mode = MPOL_BIND /\
  maxnode = n + 1 /\ flags = 3 /\
  (forall k, 0 <= k -> mask_bit nodemask k = (k =? node)).
Proof.
  intros r n. unfold r, n, numa_alloc_on_node.
  destruct (numa_get_node_count w cached) as [c st]. cbn [fst snd].
  destruct (Z.ltb_spec c 2) as [Hlt|Hc].
  { cbn [snd In]. intros [H|[]]; discriminate. }
  destruct (Z.ltb_spec node 0) as [Hneg|Hn0]; cbn [orb].
  { cbn [snd In]. intros []. }
  destruct (Z.leb_spec c node) as [Hbig|Hnc].
  { cbn [snd In]. intros []. }
  destruct (os_mmap w size) as [ptr|].
  2: { cbn [snd In]. intros [H|[]]; discriminate. }
  assert (Hmask : forall k, 0 <= k ->
    mask_bit (<[Z.to_nat (node / BITS_PER_LONG) :=
                 wrap64 (Z.shiftl 1 (node mod BITS_PER_LONG))]>
                (nodemask_zero c)) k = (k =? node)).
  { intros k Hk.
    rewrite <- (Z.lor_0_l (wrap64 (Z.shiftl 1 (node mod BITS_PER_LONG)))).
    rewrite <- (word_at_zero c (Z.to_nat (node / BITS_PER_LONG))) at 1.
    rewrite set_bit_spec; [| |exact Hk].
    - rewrite mask_bit_zero. reflexivity.
    - pose proof (nodemask_zero_length c ltac:(lia)). lia. }
  match goal with |- context [if ?b then _ else _] => destruct b end;
    cbn [fst snd In]; intros [H|[H|H]]; try discriminate H;
    try (destruct H as [H|[]]; discriminate H); try contradiction;
    injection H as <- <- <- <- <- <-;
    repeat split; try lia; try reflexivity; exact Hmask.
Qed.

Lemma bind_names_requested_node_witness :
  mask_bit [0; 0; 2] 129 = true /\ mask_bit [0; 0; 2] 1 = false.
Proof.
  assert (H : forall k, 0 <= k -> mask_bit [0; 0; 2] k = (k =? 129)).
  { apply (bind_names_requested_node NumaSamples.many_nodes UNCACHED 4096 129
             8192 4096 2 131 3 [0; 0; 2]).
    vm_compute. auto. }
  split; [apply (H 129) | apply (H 1)]; lia.
Defined.

Lemma all_nodes_loop_length (todo : nat) : forall i mask,
  length (all_nodes_loop todo i mask) = length mask.
Proof.
  induction todo as [|todo IH]; intros i mask; cbn [all_nodes_loop];
    [reflexivity|].
  rewrite IH, length_insert. reflexivity.
Qed.

Lemma all_nodes_loop_bits (todo : nat) : forall i mask k,
  0 <= i -> i + Z.of_nat todo <= 64 * Z.of_nat (length mask) -> 0 <= k ->
  mask_bit (all_nodes_loop todo i mask) k =
  mask_bit mask k || ((i <=? k) && (k <? i + Z.of_nat todo)).
Proof.
  induction todo as [|todo IH]; intros i mask k Hi Hlen Hk;
    cbn [all_nodes_loop].
  - destruct (Z.leb_spec i k), (Z.ltb_spec k (i + Z.of_nat 0)); simpl;
      rewrite ?orb_false_r; try reflexivity; lia.
  - rewrite IH by (rewrite ?length_insert; lia).
    rewrite set_bit_spec by lia.
    destruct (mask_bit mask k); [reflexivity|]. cbn [orb].
    destruct (Z.eqb_spec k i), (Z.leb_spec (i + 1) k), (Z.leb_spec i k),
      (Z.ltb_spec k (i + 1 + Z.of_nat todo)),
      (Z.ltb_spec k (i + Z.of_nat (S todo))); simpl; try reflexivity; lia.
Qed.

(** X5.  Whenever [numa_alloc_interleaved] asks the kernel to
    interleave memory, the node mask holds exactly the nodes
    0 .. n-1 of the system's node count [n], and the region is the one
    returned. *)
Theorem interleave_names_all_nodes (w : os) (cached size : Z)
    (ptr' size' mode maxnode flags : Z) (nodemask : list Z) :
  let r := numa_alloc_interleaved w cached size in
  let n := fst (numa_get_node_count w cached) in
  In (CallMbind ptr' size' mode nodemask maxnode flags) (snd r) ->
  2 <= n /\ ptr' = fst (fst r) /\ size' = size /\
  mode = MPOL_INTERLEAVE /\ maxnode = n + 1 /\
  (forall k, 0 <= k -> mask_bit nodemask k = (k <? n)).
Proof.
  intros r n. unfold r, n, numa_alloc_interleaved.
  destruct (numa_get_node_count w cached) as [c st]. cbn [fst snd].
  destruct (Z.ltb_spec c 2) as [Hlt|Hc].
  { cbn [snd In]. intros [H|[]]; discriminate. }
  destruct (os_mmap w size) as [ptr|].
  2: { cbn [snd In]. intros [H|[]]; discriminate. }
  assert (Hmask : forall k, 0 <= k ->
    mask_bit (all_nodes_loop (Z.to_nat c) 0 (nodemask_zero c)) k = (k <? c)).
  { intros k Hk. pose proof (nodemask_zero_length c ltac:(lia)).
    rewrite all_nodes_loop_bits by lia.
    rewrite mask_bit_zero, Z2Nat.id by lia. cbn [orb].
    destruct (Z.leb_spec 0 k); [reflexivity | lia]. }
  match goal with |- context [if ?b then _ else _] => destruct b end;
    cbn [fst snd In]; intros [H|[H|H]]; try discriminate H;
    try (destruct H as [H|[]]; discriminate H); try contradiction;
    injection H as <- <- <- <- <- <-;
    repeat split; try lia; try reflexivity; exact Hmask.
Qed.

Lemma interleave_names_all_nodes_witness :
  mask_bit [18446744073709551615; 18446744073709551615; 3] 129 = true /\
  mask_bit [18446744073709551615; 18446744073709551615; 3] 130 = false.
Proof.
  assert (H : forall k, 0 <= k ->
    mask_bit [18446744073709551615; 18446744073709551615; 3] k = (k <? 130)).
  { apply (interleave_names_all_nodes NumaSamples.many_nodes UNCACHED 4096
             8192 4096 3 131 2
             [18446744073709551615; 18446744073709551615; 3]).
    vm_compute. auto. }
  split; [apply (H 129) | apply (H 130)]; lia.
Defined.

End NumaAllocFacts.

(** ** Theorems: the CPU the NUMA-locality scenario pins to *)

Module NumaLocalityMainFacts.
Import CLib Numa NumaLocalityMain NumaFacts.

Lemma land_pow2_zero (mask i : Z) :
  0 <= i -> (Z.land mask (2 ^ i) =? 0) = negb (Z.testbit mask i).
Proof.
  intros Hi. destruct (Z.testbit mask i) eqn:Hb; cbn [negb].
  - apply Z.eqb_neq. intros Hz.
    assert (Z.testbit (Z.land mask (2 ^ i)) i = true) as Ht.
    { rewrite Z.land_spec, Hb, Z.pow2_bits_eqb, Z.eqb_refl by lia.
      reflexivity. }
    rewrite Hz, Z.bits_0 in Ht. discriminate.
  - apply Z.eqb_eq. apply Z.bits_inj'. intros n Hn.
    rewrite Z.land_spec, Z.bits_0, Z.pow2_bits_eqb by lia.
    destruct (Z.eqb_spec i n) as [->|_]; [rewrite Hb|rewrite andb_false_r];
      reflexivity.
Qed.

(** The scan returns the lowest set bit, or the default. *)
Lemma first_cpu_loop_spec (todo : nat) : forall i mask d,
  0 <= i -> i + Z.of_nat todo <= 64 ->
  (forall c, i <= c < i + Z.of_nat todo -> Z.testbit mask c = true ->
     (forall k, i <= k < c -> Z.testbit mask k = false) ->
     first_cpu_loop todo i mask d = c) /\
  ((forall k, i <= k < i + Z.of_nat todo -> Z.testbit mask k = false) ->
     first_cpu_loop todo i mask d = d).
Proof.
  induction todo as [|todo IH]; intros i mask d Hi Hlen;
    cbn [first_cpu_loop].
  - split; [intros c Hc; lia | reflexivity].
  - rewrite pow2_wrap, land_pow2_zero, negb_involutive by lia.
    destruct (IH (i + 1) mask d ltac:(lia) ltac:(lia)) as [Hfound Hnone].
    split.
    + intros c Hc Hset Hlow.
      destruct (Z.eq_dec c i) as [->|Hne]; [rewrite Hset; reflexivity|].
      rewrite (Hlow i) by lia. apply Hfound; [lia | exact Hset |].
      intros k Hk. apply Hlow. lia.
    + intros Hall. rewrite (Hall i) by lia. apply Hnone.
      intros k Hk. apply Hall. lia.
Qed.

(** The bits of the mask parsed from a cpulist (the first entry's CPUs
    below 64). *)
Lemma cpulist_mask_bits (first : cpu_entry) (others : list cpu_entry)
    (i : Z) :
  entry_ok first -> 0 <= i ->
  Z.testbit (numa_node_to_cpus (Some [cpulist_text first others])) i =
  match first with
  | Single a => (decimal_value a =? i) && (i <? 64)
  | Range a b =>
      (decimal_value a <=? i) && (i <=? decimal_value b) && (i <? 64)
  end.
Proof.
  intros Hok Hi.
  destruct (cpulist_text_head first others) as (c & r & -> & Hc).
  assert (Hstop : stops_digits (String c r)).
  { destruct Hc as [-> | ->]; reflexivity. }
  destruct first as [a | a b]; cbn [entry_text entry_ok] in *.
  - pose proof (decimal_value_nonneg a (proj2 Hok)) as Hva.
    assert (H2 : sscanf_d_dash_d (a ++ String c r)%string
                 = Stored1 (decimal_value a)).
    { unfold sscanf_d_dash_d. rewrite scan_integer_number by assumption.
      destruct Hc as [-> | ->]; reflexivity. }
    assert (H1 : sscanf_d (a ++ String c r)%string = Some (decimal_value a)).
    { unfold sscanf_d. rewrite scan_integer_number by assumption.
      reflexivity. }
    unfold numa_node_to_cpus. rewrite H2, H1.
    destruct (Z.ltb_spec (decimal_value a) 64) as [Hlt|Hge].
    + rewrite Z.lor_0_l, pow2_wrap, Z.pow2_bits_eqb by lia.
      destruct (Z.eqb_spec (decimal_value a) i), (Z.ltb_spec i 64);
        simpl; try reflexivity; lia.
    + rewrite Z.bits_0.
      destruct (Z.eqb_spec (decimal_value a) i), (Z.ltb_spec i 64);
        simpl; try reflexivity; lia.
  - destruct Hok as [Ha Hb].
    pose proof (decimal_value_nonneg a (proj2 Ha)) as Hva.
    rewrite append_assoc. rewrite append_assoc.
    change ("-" ++ b ++ String c r)%string
      with (String "-"%char (b ++ String c r)).
    assert (H2 : sscanf_d_dash_d (a ++ String "-"%char (b ++ String c r))%string
                 = Stored2 (decimal_value a) (decimal_value b)).
    { unfold sscanf_d_dash_d.
      rewrite scan_integer_number by (assumption || reflexivity).
      rewrite scan_integer_number by assumption. reflexivity. }
    unfold numa_node_to_cpus. rewrite H2.
    rewrite range_loop_bits by lia. rewrite Z.bits_0. reflexivity.
Qed.

(** X6.  On a NUMA system whose node-0 cpulist is well formed, the
    scenario pins itself to the first CPU of the first cpulist entry
    when that entry names a CPU below 64; when it names none (first
    CPU 64 or higher, or an empty range) the scenario pins to CPU 0,
    whether or not CPU 0 belongs to node 0. *)
Theorem pinned_cpu_is_first_of_entry (first : cpu_entry)
    (others : list cpu_entry) :
  entry_ok first -> entry_fits_int first ->
  select_cpu0 true (Some [cpulist_text first others]) =
  default 0 (entry_first_cpu first).
Proof.
  intros Hok _. unfold select_cpu0.
  set (mask := numa_node_to_cpus (Some [cpulist_text first others])).
  assert (Hbits : forall i, 0 <= i -> Z.testbit mask i = _)
    by (intros i Hi; apply (cpulist_mask_bits first others i Hok Hi)).
  destruct (first_cpu_loop_spec 64 0 mask 0 ltac:(lia) ltac:(lia))
    as [Hfound Hnone].
  change (Z.of_nat 64) with 64 in *.
  assert (Hva : 0 <= match first with Single a | Range a _ => decimal_value a end).
  { destruct first as [a|a b]; cbn [entry_ok] in Hok;
      apply decimal_value_nonneg;
      first [exact (proj2 Hok) | exact (proj2 (proj1 Hok))]. }
  destruct first as [a | a b]; cbn [entry_first_cpu]; cbv beta iota in Hva.
  - destruct (Z.ltb_spec (decimal_value a) 64) as [Hlt|Hge]; cbn [from_option id].
    + apply Hfound; [lia | |].
      * rewrite Hbits by lia.
        rewrite Z.eqb_refl. apply andb_true_intro. split; [reflexivity|].
        apply Z.ltb_lt. lia.
      * intros k Hk. rewrite Hbits by lia.
        destruct (Z.eqb_spec (decimal_value a) k); [lia | reflexivity].
    + apply Hnone. intros k Hk. rewrite Hbits by lia.
      destruct (Z.eqb_spec (decimal_value a) k); [lia | reflexivity].
  - destruct (Z.leb_spec (decimal_value a) (decimal_value b)) as [Hle|Hgt];
      destruct (Z.ltb_spec (decimal_value a) 64) as [Hlt|Hge];
      cbn [andb from_option id].
    + apply Hfound; [lia | |].
      * rewrite Hbits by lia.
        destruct (Z.leb_spec (decimal_value a) (decimal_value a)),
          (Z.leb_spec (decimal_value a) (decimal_value b)),
          (Z.ltb_spec (decimal_value a) 64); simpl; try reflexivity; lia.
      * intros k Hk. rewrite Hbits by lia.
        destruct (Z.leb_spec (decimal_value a) k); [lia | reflexivity].
    + apply Hnone. intros k Hk. rewrite Hbits by lia.
      destruct (Z.leb_spec (decimal_value a) k); [lia | reflexivity].
    + apply Hnone. intros k Hk. rewrite Hbits by lia.
      destruct (Z.leb_spec (decimal_value a) k),
        (Z.leb_spec k (decimal_value b)); simpl; try reflexivity; lia.
    + apply Hnone. intros k Hk. rewrite Hbits by lia.
      destruct (Z.leb_spec (decimal_value a) k); [lia | reflexivity].
Qed.

Lemma pinned_cpu_is_first_of_entry_witness :
  select_cpu0 true (Some [cpulist_text (Range "8" "15") [Range "24" "31"]])
  = 8 /\
  select_cpu0 true (Some [cpulist_text (Range "64" "127") []]) = 0.
Proof.
  split.
  - apply (pinned_cpu_is_first_of_entry (Range "8" "15") [Range "24" "31"]);
      vm_compute; repeat split; congruence.
  - apply (pinned_cpu_is_first_of_entry (Range "64" "127") []);
      vm_compute; repeat split; congruence.
Defined.

End NumaLocalityMainFacts.

(** ** Theorems: what the pseudo-file readers extract *)

Module MetricsParsingFacts.
Import CLib Metrics Numa Samples ProcFormat NumaFacts.

Lemma scan_integer_space (c : ascii) (s : string) :
  isspace c = true -> scan_integer (String c s) = scan_integer s.
Proof. intros H. unfold scan_integer. cbn [skip_space]. rewrite H. reflexivity. Qed.

Lemma to_ulong_count (v : Z) : v <= UINT64_MAX -> to_ulong false v = v.
Proof.
  intros H. unfold to_ulong.
  destruct (Z.ltb_spec UINT64_MAX v); [lia | reflexivity].
Qed.

Lemma strtoul_count (a rest : string) :
  is_count a -> stops_digits rest ->
  strtoul (a ++ rest) = (decimal_value a, rest).
Proof.
  intros [Ha Hmax] Hrest. unfold strtoul.
  rewrite scan_integer_number by assumption.
  rewrite to_ulong_count by exact Hmax. reflexivity.
Qed.

(** *** /proc/self/stat *)

Lemma skip_to_space_field (f rest : string) :
  no_space f = true ->
  skip_to_space (f ++ String " "%char rest) = String " "%char rest.
Proof.
  induction f as [|c f IH]; intros Hf; [reflexivity|].
  simpl in Hf. apply andb_prop in Hf. destruct Hf as [Hc Hf].
  cbn [append skip_to_space].
  destruct (Ascii.eqb c " "%char); [discriminate|]. apply IH. exact Hf.
Qed.

Lemma skip_to_space_last (f : string) :
  no_space f = true -> skip_to_space f = EmptyString.
Proof.
  induction f as [|c f IH]; intros Hf; [reflexivity|].
  simpl in Hf. apply andb_prop in Hf. destruct Hf as [Hc Hf].
  cbn [skip_to_space].
  destruct (Ascii.eqb c " "%char); [discriminate|]. apply IH. exact Hf.
Qed.

Lemma skip_one_field (n : nat) (f rest : string) :
  no_space f = true ->
  skip_fields (S n) (f ++ String " "%char rest) = skip_fields n rest.
Proof.
  intros Hf. cbn [skip_fields].
  destruct (f ++ String " "%char rest)%string eqn:E.
  - destruct f; discriminate E.
  - rewrite <- E, skip_to_space_field by exact Hf. reflexivity.
Qed.

Lemma skip_fields_leading (leading : list string) (rest : string) :
  Forall (fun f => no_space f = true) leading ->
  skip_fields (length leading) (fields_text leading ++ rest) = rest.
Proof.
  induction 1 as [|f fs Hf _ IH]; [reflexivity|].
  cbn [fields_text length]. rewrite !append_assoc.
  change (" " ++ fields_text fs ++ rest)%string
    with (String " "%char (fields_text fs ++ rest)).
  rewrite skip_one_field by exact Hf. exact IH.
Qed.

Lemma skip_fields_empty (n : nat) : skip_fields n EmptyString = EmptyString.
Proof. destruct n; reflexivity. Qed.

Lemma skip_fields_short (fs : list string) : forall n,
  Forall (fun f => no_space f = true) fs -> (length fs <= n)%nat ->
  skip_fields n (join_fields fs) = EmptyString.
Proof.
  induction fs as [|f fs IH]; intros n Hfs Hlen.
  - apply skip_fields_empty.
  - inversion Hfs as [|? ? Hf Hrest]; subst.
    destruct n as [|n]; [simpl in Hlen; lia|].
    destruct fs as [|g fs].
    + cbn [join_fields skip_fields]. destruct f as [|c f]; [reflexivity|].
      rewrite skip_to_space_last by exact Hf. apply skip_fields_empty.
    + change (join_fields (f :: g :: fs))
        with (f ++ String " "%char (join_fields (g :: fs)))%string.
      rewrite skip_one_field by exact Hf.
      apply IH; [exact Hrest | simpl in *; lia].
Qed.

Lemma stat_lines_read (leading : list string)
    (minflt cminflt majflt rest : string) :
  length leading = 9%nat ->
  Forall (fun f => no_space f = true) leading ->
  is_count minflt -> no_space cminflt = true -> is_count majflt ->
  stops_digits rest ->
  read_page_faults (Some [stat_line leading minflt cminflt majflt rest])
  = (decimal_value minflt, decimal_value majflt).
Proof.
  intros Hlen Hlead Hmin Hc Hmaj Hrest.
  unfold read_page_faults, parse_stat, stat_line.
  replace 9%nat with (length leading) by exact Hlen.
  rewrite skip_fields_leading by exact Hlead.
  destruct Hmin as [[Hne Hd] Hmax].
  destruct minflt as [|c0 m0]; [congruence|].
  change (String c0 m0 ++ " " ++ cminflt ++ " " ++ majflt ++ rest)%string
    with (String c0 (m0 ++ " " ++ cminflt ++ " " ++ majflt ++ rest))%string.
  cbv iota beta.
  change (String c0 (m0 ++ " " ++ cminflt ++ " " ++ majflt ++ rest))%string
    with (String c0 m0 ++ String " "%char (cminflt ++ " " ++ majflt ++ rest))
         %string.
  rewrite strtoul_count; [| split; [split; assumption | exact Hmax]
                          | reflexivity].
  cbn [step_over].
  change (cminflt ++ " " ++ majflt ++ rest)%string
    with (cminflt ++ String " "%char (majflt ++ rest))%string.
  rewrite skip_to_space_field by exact Hc. cbn [step_over].
  rewrite strtoul_count by assumption. reflexivity.
Qed.

(** X7.  From a stat line with nine blank-free leading fields the
    reader returns the tenth field as the minor and the twelfth as the
    major fault count; from a line that ends within its first nine
    fields it returns 0 for both. *)
Theorem stat_reader_fields (leading : list string)
    (minflt cminflt majflt rest : string) :
  length leading = 9%nat ->
  Forall (fun f => no_space f = true) leading ->
  is_count minflt -> no_space cminflt = true -> is_count majflt ->
  stops_digits rest ->
  read_page_faults (Some [stat_line leading minflt cminflt majflt rest])
  = (decimal_value minflt, decimal_value majflt)
  /\ forall n, (n <= 9)%nat ->
     read_page_faults (Some [join_fields (take n leading)]) = (0, 0).
Proof.
  intros Hlen Hlead Hmin Hc Hmaj Hrest. split.
  - apply stat_lines_read; assumption.
  - intros n Hn. unfold read_page_faults, parse_stat.
    rewrite skip_fields_short; [reflexivity | |].
    + apply Forall_take. exact Hlead.
    + rewrite length_take. lia.
Qed.

Lemma stat_reader_fields_witness :
  read_page_faults stat_97_3 = (97, 3).
Proof.
  apply (proj1 (stat_reader_fields
    ["1234"; "(pinned)"; "R"; "1"; "1234"; "1234"; "0"; "-1"; "4194304"]
    "97" "0" "3" (" 0 12 1 0 0 20 0 1" ++ nl)
    eq_refl ltac:(repeat constructor)
    ltac:(vm_compute; repeat split; congruence) eq_refl
    ltac:(vm_compute; repeat split; congruence) eq_refl))%string.
Defined.

(** *** /proc/self/status *)

Lemma fold_unlabelled (lines : list string) (vn : Z * Z) :
  Forall unlabelled lines ->
  fold_left (fun acc line => ctxt_line line acc) lines vn = vn.
Proof.
  intros H. revert vn. induction H as [|l ls [H1 H2] _ IH]; intros vn;
    [reflexivity|].
  cbn [fold_left]. unfold ctxt_line at 2. rewrite H1, H2. apply IH.
Qed.

Lemma sscanf_lu_count (v : string) :
  is_count v -> sscanf_lu (tab ++ v ++ nl) = Some (decimal_value v).
Proof.
  intros [Hv Hmax]. unfold sscanf_lu, tab. cbn [append].
  rewrite scan_integer_space by reflexivity.
  rewrite scan_integer_number by (assumption || reflexivity).
  rewrite to_ulong_count by exact Hmax. reflexivity.
Qed.

Lemma ctxt_line_voluntary (v : string) (vn : Z * Z) :
  is_count v -> ctxt_line (voluntary_line v) vn = (decimal_value v, snd vn).
Proof.
  intros Hv. unfold ctxt_line, voluntary_line.
  change (strncmp_eq ("voluntary_ctxt_switches:" ++ tab ++ v ++ nl)
            "voluntary_ctxt_switches:" 24) with true.
  change (advance 24 ("voluntary_ctxt_switches:" ++ tab ++ v ++ nl))
    with (tab ++ v ++ nl)%string.
  cbv iota. rewrite sscanf_lu_count by exact Hv. reflexivity.
Qed.

Lemma ctxt_line_nonvoluntary (v : string) (vn : Z * Z) :
  is_count v ->
  ctxt_line (nonvoluntary_line v) vn = (fst vn, decimal_value v).
Proof.
  intros Hv. unfold ctxt_line, nonvoluntary_line.
  change (strncmp_eq ("nonvoluntary_ctxt_switches:" ++ tab ++ v ++ nl)
            "voluntary_ctxt_switches:" 24) with false.
  change (strncmp_eq ("nonvoluntary_ctxt_switches:" ++ tab ++ v ++ nl)
            "nonvoluntary_ctxt_switches:" 27) with true.
  change (advance 27 ("nonvoluntary_ctxt_switches:" ++ tab ++ v ++ nl))
    with (tab ++ v ++ nl)%string.
  cbv iota. rewrite sscanf_lu_count by exact Hv. reflexivity.
Qed.

Lemma status_file_read (before between after : list string)
    (v nv : string) (vn : Z * Z) :
  Forall unlabelled before -> Forall unlabelled between ->
  Forall unlabelled after -> is_count v -> is_count nv ->
  read_ctxt_switches (status_file before v between nv after) vn
  = (decimal_value v, decimal_value nv).
Proof.
  intros Hb Hm Ha Hv Hnv. unfold read_ctxt_switches, status_file.
  rewrite !fold_left_app. rewrite (fold_unlabelled before) by exact Hb.
  cbn [fold_left]. rewrite ctxt_line_voluntary by exact Hv.
  rewrite (fold_unlabelled between) by exact Hm.
  rewrite ctxt_line_nonvoluntary by exact Hnv.
  rewrite (fold_unlabelled after) by exact Ha. reflexivity.
Qed.

(** X8.  From a status file that carries the two label lines the
    reader returns the two counts printed there, whatever its targets
    held before; from a file that opens but carries neither label it
    returns its targets unchanged. *)
Theorem status_reader_counts (before between after : list string)
    (v nv : string) (vn : Z * Z) :
  Forall unlabelled before -> Forall unlabelled between ->
  Forall unlabelled after -> is_count v -> is_count nv ->
  read_ctxt_switches (status_file before v between nv after) vn
  = (decimal_value v, decimal_value nv)
  /\ read_ctxt_switches (Some (before ++ between ++ after)) vn = vn.
Proof.
  intros Hb Hm Ha Hv Hnv. split.
  - apply status_file_read; assumption.
  - unfold read_ctxt_switches. apply fold_unlabelled.
    rewrite !Forall_app. auto.
Qed.

Lemma status_reader_counts_witness :
  read_ctxt_switches status_5_2 (77, 88) = (5, 2).
Proof.
  apply (proj1 (status_reader_counts
    [("Name:" ++ tab ++ "pinned" ++ nl)%string;
     ("Threads:" ++ tab ++ "1" ++ nl)%string] [] [] "5" "2" (77, 88)
    ltac:(repeat constructor) ltac:(constructor) ltac:(constructor)
    ltac:(vm_compute; repeat split; congruence)
    ltac:(vm_compute; repeat split; congruence))).
Defined.

(** *** A whole iteration on healthy pseudo-files *)

Lemma get_timestamp_ns_normal (c : clock_reply) :
  normal_time (clock_ts c) ->
  get_timestamp_ns c =
  tv_sec (clock_ts c) * 1000000000 + tv_nsec (clock_ts c).
Proof.
  intros (Hs & Hn & Hfit). rewrite MetricsFacts.get_timestamp_ns_value.
  apply wrap64_small. lia.
Qed.

(** X9.  When the clock readings at both ends are normalised and the
    end reading is later than the begin reading, the emitted runtime_ns
    is the exact number of nanoseconds between the two readings, and it
    is positive. *)
Theorem runtime_is_elapsed_time (b e : sample_env) (locals : Z * Z)
    (m : workload_metrics_t) :
  normal_time (clock_ts (env_clock b)) ->
  normal_time (clock_ts (env_clock e)) ->
  earlier (clock_ts (env_clock b)) (clock_ts (env_clock e)) ->
  runtime_ns (emitted_record b e locals m)
  = ns_between (clock_ts (env_clock b)) (clock_ts (env_clock e))
  /\ 0 < runtime_ns (emitted_record b e locals m).
Proof.
  intros Hb He Hlt.
  destruct (MetricsFacts.emitted_clock_columns b e locals m) as [_ Hrun].
  rewrite Hrun, !get_timestamp_ns_normal by assumption.
  unfold ns_between.
  destruct Hb as (Hbs & Hbn & Hbf). destruct He as (Hes & Hen & Hef).
  assert (Hpos : 0 < (tv_sec (clock_ts (env_clock e)) * 1000000000
                      + tv_nsec (clock_ts (env_clock e)))
                     - (tv_sec (clock_ts (env_clock b)) * 1000000000
                        + tv_nsec (clock_ts (env_clock b)))).
  { destruct Hlt as [Hs | [Hs Hn]]; nia. }
  rewrite wrap64_small by lia. split; lia.
Qed.

Lemma runtime_is_elapsed_time_witness :
  runtime_ns (emitted_record begin_env end_env (77, 88) metrics_zero) = 650.
Proof.
  apply (proj1 (runtime_is_elapsed_time begin_env end_env (77, 88)
                  metrics_zero
    ltac:(vm_compute; repeat split; congruence)
    ltac:(vm_compute; repeat split; congruence)
    ltac:(right; vm_compute; split; reflexivity))).
Defined.

(** X10.  When both pseudo-files are well formed at both ends of an
    iteration and no counter decreased, the four emitted counter
    columns are the exact increases of the counts printed in the
    files, start_cpu and end_cpu are the CPUs reported at the two ends,
    and nothing of the uninitialised locals of [metrics_finish] or of
    the former content of the record shows. *)
Theorem healthy_iteration_deltas (b e : sample_env) (locals : Z * Z)
    (m : workload_metrics_t)
    (before0 between0 after0 before1 between1 after1 : list string)
    (v0 nv0 v1 nv1 : string)
    (lead0 lead1 : list string)
    (min0 cmin0 maj0 rest0 min1 cmin1 maj1 rest1 : string) :
  env_status b = status_file before0 v0 between0 nv0 after0 ->
  env_status e = status_file before1 v1 between1 nv1 after1 ->
  env_stat b = Some [stat_line lead0 min0 cmin0 maj0 rest0] ->
  env_stat e = Some [stat_line lead1 min1 cmin1 maj1 rest1] ->
  Forall unlabelled (before0 ++ between0 ++ after0) ->
  Forall unlabelled (before1 ++ between1 ++ after1) ->
  Forall is_count [v0; nv0; v1; nv1; min0; maj0; min1; maj1] ->
  (length lead0 = 9%nat /\ length lead1 = 9%nat) ->
  Forall (fun f => no_space f = true) (cmin0 :: cmin1 :: lead0 ++ lead1) ->
  (stops_digits rest0 /\ stops_digits rest1) ->
  (decimal_value v0 <= decimal_value v1 /\
   decimal_value nv0 <= decimal_value nv1 /\
   decimal_value min0 <= decimal_value min1 /\
   decimal_value maj0 <= decimal_value maj1) ->
  skipn 2 (metrics_print_csv (emitted_record b e locals m)) =
  [ decimal_value v1 - decimal_value v0;
    decimal_value nv1 - decimal_value nv0;
    decimal_value min1 - decimal_value min0;
    decimal_value maj1 - decimal_value maj0;
    env_cpu b; env_cpu e ].
Proof.
  intros Hsb Hse Htb Hte Hu0 Hu1 Hc [Hl0 Hl1] Hns [Hr0 Hr1]
    (Hv & Hnv & Hmin & Hmaj).
  rewrite !Forall_app in Hu0, Hu1.
  destruct Hu0 as (Hb0 & Hm0 & Ha0). destruct Hu1 as (Hb1 & Hm1 & Ha1).
  repeat match goal with
  | H : Forall _ (_ :: _) |- _ =>
      let x := fresh "Hx" in
      apply Forall_cons_iff in H; destruct H as [x H]
  end.
  rewrite Forall_app in Hns. destruct Hns as [Hn0 Hn1].
  unfold emitted_record, metrics_finish, metrics_init.
  rewrite Hsb, Hse, Htb, Hte.
  rewrite !status_file_read by assumption.
  rewrite !stat_lines_read by assumption.
  cbn [metrics_print_csv skipn voluntary_ctxt_switches
       nonvoluntary_ctxt_switches minor_page_faults major_page_faults
       start_cpu end_cpu timestamp_ns runtime_ns].
  repeat match goal with
  | H : is_count ?s |- _ =>
      let Hn := fresh "Hnn" in
      pose proof (decimal_value_nonneg s (proj2 (proj1 H))) as Hn;
      unfold is_count, UINT64_MAX in H; destruct H as [_ H]
  end.
  rewrite !wrap64_small by lia. reflexivity.
Qed.

Lemma healthy_iteration_deltas_witness :
  skipn 2 (metrics_print_csv
             (emitted_record begin_env end_env (77, 88) metrics_zero))
  = [4; 1; 23; 0; 0; 0].
Proof.
  apply (healthy_iteration_deltas begin_env end_env (77, 88) metrics_zero
    [("Name:" ++ tab ++ "pinned" ++ nl)%string;
     ("Threads:" ++ tab ++ "1" ++ nl)%string] [] []
    [("Name:" ++ tab ++ "pinned" ++ nl)%string;
     ("Threads:" ++ tab ++ "1" ++ nl)%string] [] []
    "5" "2" "9" "3"
    ["1234"; "(pinned)"; "R"; "1"; "1234"; "1234"; "0"; "-1"; "4194304"]
    ["1234"; "(pinned)"; "R"; "1"; "1234"; "1234"; "0"; "-1"; "4194304"]
    "97" "0" "3" (" 0 12 1 0 0 20 0 1" ++ nl)
    "120" "0" "3" (" 0 12 1 0 0 20 0 1" ++ nl)
    eq_refl eq_refl eq_refl eq_refl
    ltac:(repeat constructor) ltac:(repeat constructor)
    ltac:(repeat constructor; vm_compute; congruence)
    (conj eq_refl eq_refl)
    ltac:(repeat constructor)
    (conj eq_refl eq_refl)
    ltac:(vm_compute; repeat split; congruence))%string.
Defined.

End MetricsParsingFacts.

(** ** Theorems: release of the counter group, repeated iterations *)

Module PerfCloseFacts.
Import Perf PerfClose PerfFacts.

Lemma close_live_events (pc : perf_counters_t) :
  perf_counters_close pc =
  concat (map (fun e => [Close (fd_of e pc)])
              (filter (fun e => live pc e = true) all_events)).
Proof.
  transitivity (concat (map (fun e => close_one (fd_of e pc)) all_events)).
  - unfold perf_counters_close. simpl. rewrite app_nil_r. reflexivity.
  - apply concat_guarded. intros e. unfold close_one, live. reflexivity.
Qed.

Lemma in_close_events (pc : perf_counters_t) (l : list hw_event) (fd : Z) :
  In (Close fd) (concat (map (fun e => [Close (fd_of e pc)]) l)) <->
  exists e, In e l /\ fd_of e pc = fd.
Proof.
  induction l as [|x l IH]; simpl.
  - split; [intros [] | intros (e & [] & _)].
  - rewrite IH. split.
    + intros [H | (e & He & Hfd)].
      * injection H as <-. exists x. auto.
      * exists e. auto.
    + intros (e & [-> | He] & Hfd); [left; congruence | right; eauto].
Qed.

Lemma in_start_events (pc : perf_counters_t) (l : list hw_event) (fd : Z) :
  In (Ioctl fd PERF_EVENT_IOC_ENABLE)
     (concat (map (fun e => [Ioctl (fd_of e pc) PERF_EVENT_IOC_RESET;
                             Ioctl (fd_of e pc) PERF_EVENT_IOC_ENABLE]) l)) <->
  exists e, In e l /\ fd_of e pc = fd.
Proof.
  induction l as [|x l IH]; simpl.
  - split; [intros [] | intros (e & [] & _)].
  - rewrite IH. split.
    + intros [H | [H | (e & He & Hfd)]].
      * discriminate H.
      * injection H as <-. exists x. auto.
      * exists e. auto.
    + intros (e & [-> | He] & Hfd); [right; left; congruence | right; right; eauto].
Qed.

Lemma in_stop_events (pc : perf_counters_t) (l : list hw_event) (fd : Z) :
  In (Read fd 8)
     (concat (map (fun e => [Ioctl (fd_of e pc) PERF_EVENT_IOC_DISABLE;
                             Read (fd_of e pc) 8]) l)) <->
  exists e, In e l /\ fd_of e pc = fd.
Proof.
  induction l as [|x l IH]; simpl.
  - split; [intros [] | intros (e & [] & _)].
  - rewrite IH. split.
    + intros [H | [H | (e & He & Hfd)]].
      * discriminate H.
      * injection H as <-. exists x. auto.
      * exists e. auto.
    + intros (e & [-> | He] & Hfd); [right; left; congruence | right; right; eauto].
Qed.

(** X11.  [perf_counters_close] closes exactly the descriptors that
    start enables and stop reads, each once and in panel order, and
    never passes a negative descriptor to [close]. *)
Theorem close_releases_what_was_used (sys_read : Z -> read_reply)
    (pc : perf_counters_t) (fd : Z) :
  perf_counters_close pc =
    map (fun e => Close (fd_of e pc))
        (filter (fun e => live pc e = true) all_events) /\
  (In (Close fd) (perf_counters_close pc) <->
   In (Ioctl fd PERF_EVENT_IOC_ENABLE) (perf_counters_start pc)) /\
  (In (Close fd) (perf_counters_close pc) <->
   In (Read fd 8) (snd (perf_counters_stop sys_read pc))) /\
  (In (Close fd) (perf_counters_close pc) -> 0 <= fd).
Proof.
  split; [|split; [|split]].
  - rewrite close_live_events.
    induction (filter (fun e => live pc e = true) all_events) as [|x l IH];
      simpl; [reflexivity | rewrite IH; reflexivity].
  - rewrite close_live_events, start_live_events.
    rewrite in_close_events, in_start_events. reflexivity.
  - rewrite close_live_events, stop_live_events.
    rewrite in_close_events, in_stop_events. reflexivity.
  - rewrite close_live_events, in_close_events.
    intros (e & He & <-). apply list_elem_of_In, list_elem_of_filter in He.
    destruct He as [Hlive _]. unfold live in Hlive.
    apply Z.leb_le. exact Hlive.
Qed.

(** *** Repeated iterations *)

Lemma stop_start_slots (sys_read : Z -> read_reply) (pc : perf_counters_t) :
  start_slots (fst (perf_counters_stop sys_read pc)) = start_slots pc.
Proof.
  unfold perf_counters_stop.
  destruct (stop_one sys_read (fd_instructions pc) _) as [v1 t1].
  destruct (stop_one sys_read (fd_cycles pc) _) as [v2 t2].
  destruct (stop_one sys_read (fd_l1_dcache_misses pc) _) as [v3 t3].
  destruct (stop_one sys_read (fd_llc_misses pc) _) as [v4 t4].
  destruct (stop_one sys_read (fd_branches pc) _) as [v5 t5].
  destruct (stop_one sys_read (fd_branch_misses pc) _) as [v6 t6].
  reflexivity.
Qed.

Lemma iterations_app (reads reads' : list (Z -> read_reply))
    (pc : perf_counters_t) :
  iterations (reads ++ reads') pc = iterations reads' (iterations reads pc).
Proof.
  revert pc. induction reads as [|r reads IH]; intros pc; [reflexivity|].
  cbn [app iterations]. apply IH.
Qed.

Lemma iterations_keep (reads : list (Z -> read_reply)) :
  forall pc,
  start_slots (iterations reads pc) = start_slots pc /\
  (forall e, fd_of e (iterations reads pc) = fd_of e pc) /\
  (forall e, fd_of e pc < 0 ->
     value_of e (iterations reads pc) = value_of e pc).
Proof.
  induction reads as [|r reads IH]; intros pc; cbn [iterations].
  - auto.
  - destruct (IH (fst (perf_counters_stop r pc))) as (Hs & Hf & Hv).
    split; [|split].
    + rewrite Hs. apply stop_start_slots.
    + intros e. rewrite Hf. apply stop_fd.
    + intros e He. rewrite Hv by (rewrite stop_fd; exact He).
      apply stop_dead_value. exact He.
Qed.

(** X12.  Over any number of measured iterations after
    [perf_counters_init], the start-value slots of the record stay 0
    and the descriptors stay as opened; after the last stop each count
    is the raw value of that stop's own read, 0 when the read did not
    return 8 bytes or the event is not live: nothing is subtracted and
    nothing accumulates from earlier iterations. *)
Theorem counts_are_last_raw_reads (sys_open : Z -> Z -> Z)
    (reads : list (Z -> read_reply)) (last : Z -> read_reply)
    (e : hw_event) :
  let pc0 := snd (perf_counters_init sys_open) in
  let pc := iterations (reads ++ [last]) pc0 in
  start_slots pc = [0; 0; 0; 0; 0; 0] /\
  fd_of e pc = fd_of e pc0 /\
  value_of e pc =
    (if 0 <=? fd_of e pc0 then
       if rd_ret (last (fd_of e pc0)) =? 8
       then rd_data (last (fd_of e pc0)) else 0
     else 0).
Proof.
  intros pc0 pc. unfold pc. rewrite iterations_app. cbn [iterations].
  destruct (iterations_keep reads pc0) as (Hs & Hf & Hv).
  split; [|split].
  - rewrite stop_start_slots, Hs. unfold pc0, perf_counters_init.
    match goal with |- context [if ?c then _ else _] => destruct c end;
      reflexivity.
  - rewrite stop_fd. apply Hf.
  - rewrite stop_value, Hf.
    destruct (Z.leb_spec 0 (fd_of e pc0)) as [Hlive|Hdead].
    + rewrite stop_one_live by exact Hlive. reflexivity.
    + rewrite stop_one_dead by exact Hdead. cbn [fst].
      rewrite Hv by exact Hdead. apply init_values.
Qed.

End PerfCloseFacts.

(** ** Theorems: the text of the CSV output *)

Module CsvFacts.
Import CLib CPrint Metrics Numa Samples CsvText NumaFacts.

Lemma digit_of_digit_char (d : Z) :
  0 <= d <= 9 -> digit_of (digit_char d) = Some d.
Proof.
  intros H.
  assert (d = 0 \/ d = 1 \/ d = 2 \/ d = 3 \/ d = 4 \/ d = 5 \/ d = 6
          \/ d = 7 \/ d = 8 \/ d = 9) as Hd by lia.
  repeat (destruct Hd as [-> | Hd]; [reflexivity|]). subst d. reflexivity.
Qed.

Lemma isdigit_digit_char (n : Z) : isdigit (digit_char (n mod 10)) = true.
Proof.
  unfold isdigit. rewrite digit_of_digit_char; [reflexivity|].
  pose proof (Z.mod_pos_bound n 10 ltac:(lia)). lia.
Qed.

(** The printer writes the decimal representation. *)
Lemma print_digits_spec (fuel : nat) : forall n acc,
  0 <= n < 10 ^ Z.of_nat fuel -> (1 <= fuel)%nat ->
  all_digits acc = true ->
  let s := print_digits fuel n acc in
  all_digits s = true /\ s <> EmptyString /\
  decimal_value s =
    n * 10 ^ Z.of_nat (String.length acc) + decimal_value acc.
Proof.
  induction fuel as [|fuel IH]; intros n acc Hn Hfuel Hacc; [lia|].
  cbn [print_digits].
  pose proof (Z.mod_pos_bound n 10 ltac:(lia)) as Hmod.
  pose proof (Z.div_mod n 10 ltac:(lia)) as Hdiv.
  assert (Hacc' : all_digits (String (digit_char (n mod 10)) acc) = true).
  { cbn [all_digits]. rewrite isdigit_digit_char, Hacc. reflexivity. }
  assert (Hval : decimal_value (String (digit_char (n mod 10)) acc) =
                 n mod 10 * 10 ^ Z.of_nat (String.length acc)
                 + decimal_value acc).
  { cbn [decimal_value]. rewrite digit_of_digit_char by lia. reflexivity. }
  destruct (Z.ltb_spec n 10) as [Hlt|Hge].
  - cbv zeta. split; [exact Hacc'|]. split; [discriminate|].
    rewrite Hval, Z.mod_small by lia. reflexivity.
  - assert (Hf : (1 <= fuel)%nat).
    { destruct fuel; [simpl in Hn; lia | lia]. }
    assert (Hq : 0 <= n / 10 < 10 ^ Z.of_nat fuel).
    { rewrite Nat2Z.inj_succ, Z.pow_succ_r in Hn by lia.
      split; [apply Z.div_pos; lia | apply Z.div_lt_upper_bound; lia]. }
    destruct (IH (n / 10) _ Hq Hf Hacc') as (Hd & Hne & Hv).
    cbv zeta. split; [exact Hd|]. split; [exact Hne|].
    rewrite Hv, Hval. cbn [String.length].
    rewrite Nat2Z.inj_succ, Z.pow_succ_r by lia.
    set (p := 10 ^ Z.of_nat (String.length acc)). nia.
Qed.

Lemma print_lu_spec (n : Z) :
  0 <= n < two64 ->
  is_number (print_lu n) /\ decimal_value (print_lu n) = n.
Proof.
  intros Hn. unfold print_lu.
  destruct (print_digits_spec 20 n EmptyString) as (Hd & Hne & Hv);
    [unfold two64 in Hn; change (10 ^ Z.of_nat 20) with 100000000000000000000;
     lia | lia | reflexivity |].
  split; [split; assumption|].
  rewrite Hv. cbn [String.length decimal_value]. change (Z.of_nat 0) with 0.
  rewrite Z.pow_0_r. lia.
Qed.

Lemma print_digits_all_digits (fuel : nat) : forall n acc,
  all_digits acc = true -> all_digits (print_digits fuel n acc) = true.
Proof.
  induction fuel as [|fuel IH]; intros n acc Hacc; [exact Hacc|].
  cbn [print_digits].
  assert (Hacc' : all_digits (String (digit_char (n mod 10)) acc) = true).
  { cbn [all_digits]. rewrite isdigit_digit_char, Hacc. reflexivity. }
  destruct (n <? 10); [exact Hacc' | apply IH; exact Hacc'].
Qed.

(** *** Commas and newlines *)

Lemma count_char_app (c : ascii) (a b : string) :
  count_char c (a ++ b) = (count_char c a + count_char c b)%nat.
Proof.
  induction a as [|x a IH]; [reflexivity|].
  cbn [append count_char]. destruct (Ascii.eqb x c); rewrite IH; reflexivity.
Qed.

Lemma digit_not_separator (c : ascii) :
  isdigit c = true -> Ascii.eqb c comma = false /\ Ascii.eqb c newline = false.
Proof.
  destruct c as [[] [] [] [] [] [] [] []]; intros H;
    vm_compute in H; try discriminate H; split; reflexivity.
Qed.

Lemma digits_no_separator (s : string) :
  all_digits s = true ->
  count_char comma s = O /\ count_char newline s = O.
Proof.
  induction s as [|c s IH]; intros H; [split; reflexivity|].
  cbn [all_digits] in H. apply andb_prop in H. destruct H as [Hc Hs].
  destruct (digit_not_separator c Hc) as [H1 H2].
  destruct (IH Hs) as [I1 I2].
  cbn [count_char]. rewrite H1, H2. auto.
Qed.

Lemma print_lu_no_separator (n : Z) :
  count_char comma (print_lu n) = O /\ count_char newline (print_lu n) = O.
Proof.
  apply digits_no_separator. unfold print_lu.
  apply print_digits_all_digits. reflexivity.
Qed.

Lemma print_d_no_separator (n : Z) :
  count_char comma (print_d n) = O /\ count_char newline (print_d n) = O.
Proof.
  unfold print_d. destruct (n <? 0).
  - destruct (print_lu_no_separator (- n)) as [H1 H2].
    cbn [count_char]. change (Ascii.eqb "-" comma) with false.
    change (Ascii.eqb "-" newline) with false. auto.
  - apply print_lu_no_separator.
Qed.

(** X13.  Every record line written by [metrics_print_csv] has the
    same number of comma-separated columns as the header written by
    [metrics_print_csv_header] (eight), whatever the record holds, and
    is a single line: its only newline is its last character. *)
Theorem record_matches_header (m : workload_metrics_t) :
  count_char comma (metrics_print_csv_text m)
    = count_char comma metrics_print_csv_header /\
  count_char comma (metrics_print_csv_text m) = 7%nat /\
  count_char newline (metrics_print_csv_text m) = 1%nat /\
  exists body, metrics_print_csv_text m = (body ++ nl)%string /\
               count_char newline body = O.
Proof.
  assert (Hc : count_char comma (metrics_print_csv_text m) = 7%nat).
  { unfold metrics_print_csv_text. rewrite !count_char_app.
    rewrite !(proj1 (print_lu_no_separator _)),
            !(proj1 (print_d_no_separator _)). reflexivity. }
  split; [rewrite Hc; reflexivity|]. split; [exact Hc|]. split.
  - unfold metrics_print_csv_text. rewrite !count_char_app.
    rewrite !(proj2 (print_lu_no_separator _)),
            !(proj2 (print_d_no_separator _)). reflexivity.
  - exists (print_lu (timestamp_ns m) ++ "," ++
            print_lu (runtime_ns m) ++ "," ++
            print_lu (voluntary_ctxt_switches m) ++ "," ++
            print_lu (nonvoluntary_ctxt_switches m) ++ "," ++
            print_lu (minor_page_faults m) ++ "," ++
            print_lu (major_page_faults m) ++ "," ++
            print_d (start_cpu m) ++ "," ++
            print_d (end_cpu m))%string.
    split.
    + unfold metrics_print_csv_text. rewrite !append_assoc. reflexivity.
    + rewrite !count_char_app.
      rewrite !(proj2 (print_lu_no_separator _)),
              !(proj2 (print_d_no_separator _)). reflexivity.
Qed.

(** *** Reading a record line back *)

Lemma scan_integer_print_lu (n : Z) (rest : string) :
  0 <= n < two64 -> stops_digits rest ->
  scan_integer (print_lu n ++ rest) = Some (false, n, rest).
Proof.
  intros Hn Hrest. destruct (print_lu_spec n Hn) as [Hnum Hval].
  rewrite scan_integer_number by assumption. rewrite Hval. reflexivity.
Qed.

Lemma scan_integer_minus (a rest : string) :
  is_number a -> stops_digits rest ->
  scan_integer (String "-"%char (a ++ rest))
  = Some (true, decimal_value a, rest).
Proof.
  intros [Hne Ha] Hrest. destruct a as [|c a]; [congruence|].
  assert (Hc : isdigit c = true).
  { simpl in Ha. apply andb_prop in Ha. tauto. }
  unfold scan_integer. cbn [skip_space].
  change (isspace "-") with false. cbv iota. cbn [scan_sign append peek].
  rewrite Hc.
  change (String c (a ++ rest)%string) with (String c a ++ rest)%string.
  rewrite scan_digits_app by assumption. reflexivity.
Qed.

Lemma scan_integer_print_d (n : Z) (rest : string) :
  - 2 ^ 31 <= n < 2 ^ 31 -> stops_digits rest ->
  exists neg v,
    scan_integer (print_d n ++ rest) = Some (neg, v, rest) /\
    to_int neg v = n.
Proof.
  intros Hn Hrest. unfold print_d.
  destruct (Z.ltb_spec n 0) as [Hneg|Hpos].
  - destruct (print_lu_spec (- n)) as [Hnum Hval]; [unfold two64; lia|].
    exists true, (- n). cbn [append].
    rewrite scan_integer_minus by assumption.
    rewrite Hval. split; [reflexivity | cbn [to_int]; lia].
  - exists false, n. rewrite scan_integer_print_lu by (unfold two64; lia || assumption).
    split; reflexivity.
Qed.

Lemma scan_column_lu (k : nat) (n : Z) (c : ascii) (rest : string) :
  0 <= n < two64 -> isdigit c = false ->
  scan_columns (S k) (print_lu n ++ String c rest)
  = n :: scan_columns k rest.
Proof.
  intros Hn Hc. cbn [scan_columns].
  rewrite scan_integer_print_lu by assumption. reflexivity.
Qed.

Lemma scan_column_d (k : nat) (n : Z) (c : ascii) (rest : string) :
  - 2 ^ 31 <= n < 2 ^ 31 -> isdigit c = false ->
  scan_columns (S k) (print_d n ++ String c rest)
  = n :: scan_columns k rest.
Proof.
  intros Hn Hc. cbn [scan_columns].
  destruct (scan_integer_print_d n (String c rest) Hn Hc)
    as (neg & v & -> & <-).
  reflexivity.
Qed.

Lemma read_back (m : workload_metrics_t) :
  fields_in_range m ->
  scan_columns 8 (metrics_print_csv_text m) = metrics_print_csv m.
Proof.
  intros [Hu Hi].
  repeat match goal with
  | H : Forall _ (_ :: _) |- _ =>
      let x := fresh "Hx" in
      apply Forall_cons_iff in H; destruct H as [x H]
  end.
  unfold metrics_print_csv_text, metrics_print_csv, nl.
  cbn [append].
  rewrite !scan_column_lu by (assumption || reflexivity).
  rewrite !scan_column_d by (assumption || reflexivity).
  reflexivity.
Qed.

(** X14.  The record line loses nothing: reading its eight columns
    back with the library's integer conversion yields the eight fields
    of the record, so two records in the range of their C types that
    print the same line hold the same fields. *)
Theorem record_line_is_lossless (m m' : workload_metrics_t) :
  fields_in_range m ->
  scan_columns 8 (metrics_print_csv_text m) = metrics_print_csv m /\
  (fields_in_range m' ->
   metrics_print_csv_text m = metrics_print_csv_text m' ->
   metrics_print_csv m = metrics_print_csv m').
Proof.
  intros Hm. split; [apply read_back; exact Hm|].
  intros Hm' Heq. rewrite <- (read_back m Hm), <- (read_back m' Hm'), Heq.
  reflexivity.
Qed.

Lemma record_line_is_lossless_witness :
  scan_columns 8
    (metrics_print_csv_text
       (emitted_record begin_env end_env_unreadable (77, 88) metrics_zero))
  = [100000000900; 650; 18446744073709551611; 18446744073709551614;
     18446744073709551519; 18446744073709551613; 0; 0].
Proof.
  apply (proj1 (record_line_is_lossless
    (emitted_record begin_env end_env_unreadable (77, 88) metrics_zero)
    metrics_zero
    ltac:(split; repeat constructor; vm_compute; congruence))).
Defined.

End CsvFacts.

(** ** Theorems: what cache_analysis.c writes *)

Module CacheAnalysisFacts.
Import CLib CPrint Metrics Perf PerfClose CsvText CacheAnalysis Samples.
Import PerfFacts CsvFacts NumaFacts.


Lemma metrics_line_shape (m : workload_metrics_t) :
  exists body, metrics_print_csv_text m = (body ++ nl)%string /\
               count_char newline body = O /\
               count_char comma body = 7%nat.
Proof.
  exists (print_lu (timestamp_ns m) ++ "," ++
          print_lu (runtime_ns m) ++ "," ++
          print_lu (voluntary_ctxt_switches m) ++ "," ++
          print_lu (nonvoluntary_ctxt_switches m) ++ "," ++
          print_lu (minor_page_faults m) ++ "," ++
          print_lu (major_page_faults m) ++ "," ++
          print_d (start_cpu m) ++ "," ++
          print_d (end_cpu m))%string.
  split; [|split].
  - unfold metrics_print_csv_text. rewrite !append_assoc. reflexivity.
  - rewrite !count_char_app.
    rewrite !(proj2 (print_lu_no_separator _)),
            !(proj2 (print_d_no_separator _)). reflexivity.
  - rewrite !count_char_app.
    rewrite !(proj1 (print_lu_no_separator _)),
            !(proj1 (print_d_no_separator _)). reflexivity.
Qed.

(** X16.  Every row cache_analysis writes is broken after the end_cpu
    column: the text of a run starts with one complete line of ten
    columns (run, buffer size, eight metrics) and then goes on, on the
    next line, with either a comma and the perf columns or an empty
    line. *)
Theorem row_breaks_after_metrics (run : Z) (name : string)
    (m : workload_metrics_t) (perf : perf_counters_t) (perf_row : string) :
  count_char newline name = O ->
  count_char comma name = O ->
  exists first more,
    row_text run name m perf perf_row = (first ++ nl ++ more)%string /\
    count_char newline first = O /\
    count_char comma first = 9%nat /\
    more = (if 0 <=? fd_instructions perf
            then String comma perf_row else nl).
Proof.
  intros Hnl Hcm. destruct (metrics_line_shape m) as (body & Hbody & Hb1 & Hb2).
  exists (print_d run ++ "," ++ name ++ "," ++ body)%string.
  exists (if 0 <=? fd_instructions perf then String comma perf_row else nl).
  split; [|split; [|split]].
  - unfold row_text. rewrite Hbody. rewrite !append_assoc.
    destruct (0 <=? fd_instructions perf); reflexivity.
  - rewrite !count_char_app, Hnl, Hb1,
      (proj2 (print_d_no_separator run)). reflexivity.
  - rewrite !count_char_app, Hcm, Hb2,
      (proj1 (print_d_no_separator run)). reflexivity.
  - reflexivity.
Qed.

Lemma row_breaks_after_metrics_witness :
  exists first more,
    row_text 3 "8KB_L1" metrics_zero
      (snd (perf_counters_init open_all)) "1,2,0.500,0,0,0,0,0.000000"
    = (first ++ nl ++ more)%string /\
    count_char newline first = O /\
    count_char comma first = 9%nat /\
    more = String comma "1,2,0.500,0,0,0,0,0.000000".
Proof.
  exact (row_breaks_after_metrics 3 "8KB_L1" metrics_zero
           (snd (perf_counters_init open_all)) "1,2,0.500,0,0,0,0,0.000000"
           eq_refl eq_refl).
Defined.

End CacheAnalysisFacts.

(** ** Theorems: random read, index generation, memory_stream.c *)

Module MemoryReadFacts.
Import MemoryRandom MemoryStream MemoryRandomRead MemoryRandomFacts Samples.

Local Open Scope nat_scope.

Lemma wrap64_add_l (a b : Z) : wrap64 (wrap64 a + b) = wrap64 (a + b).
Proof. unfold wrap64, two64. apply Zplus_mod_idemp_l. Qed.

Lemma total_perm (l l' : list Z) : l ≡ₚ l' -> total l = total l'.
Proof.
  unfold total. induction 1 as [|x l l' _ IH|x y l|l l' l'' _ IH1 _ IH2];
    simpl; lia.
Qed.

Lemma slots_read (buffer : list Z) :
  (fun n => at_pos buffer n) <$> seq 0 (length buffer) = buffer.
Proof.
  apply list_eq. intros i. rewrite list_lookup_fmap.
  destruct (decide (i < length buffer)) as [Hi|Hi].
  - rewrite lookup_seq_lt by exact Hi. simpl. symmetry.
    apply lookup_at_pos. exact Hi.
  - rewrite lookup_seq_ge by lia. symmetry. apply lookup_ge_None. lia.
Qed.

(** *** Sequential read *)

Lemma sum_loop_total (buffer : list Z) (todo : nat) : forall i sum,
  sum_loop todo i buffer (wrap64 sum)
  = wrap64 (sum + total ((fun n => at_pos buffer n) <$> seq i todo)).
Proof.
  induction todo as [|todo IH]; intros i sum; cbn [sum_loop seq fmap list_fmap].
  - unfold total. simpl. rewrite Z.add_0_r. reflexivity.
  - rewrite wrap64_add_l, IH. f_equal. unfold total. simpl. lia.
Qed.

Lemma memory_stream_read_total (buffer : list Z) (size : Z) :
  length buffer = Z.to_nat (size / 8) ->
  memory_stream_read buffer size = wrap64 (total buffer).
Proof.
  intros Hlen. unfold memory_stream_read.
  change 0%Z with (wrap64 0) at 1. rewrite sum_loop_total.
  rewrite <- Hlen, slots_read. reflexivity.
Qed.

(** *** Random read *)

Lemma read_loop_total (buffer indices : list Z) (count : Z) (todo : nat) :
  forall i sum,
  read_loop todo i buffer indices count (wrap64 sum)
  = wrap64 (sum + total ((fun k => at_pos buffer
                             (Z.to_nat (at_pos indices k mod count)))
                         <$> seq i todo)).
Proof.
  induction todo as [|todo IH]; intros i sum;
    cbn [read_loop seq fmap list_fmap].
  - unfold total. simpl. rewrite Z.add_0_r. reflexivity.
  - rewrite wrap64_add_l, IH. f_equal. unfold total. simpl. lia.
Qed.

(** X17.  Whatever the index array holds, [memory_random_read] reads
    only inside the buffer: with a buffer of at least one slot, every
    position it reads is reduced below the slot count, and the value
    returned is the sum, modulo 2^64, of the slots at those
    positions. *)
Theorem random_read_stays_in_bounds (buffer indices : list Z)
    (size access_count : Z) :
  (8 <= size)%Z ->
  Forall (fun p => (0 <= p < size / 8)%Z)
         (read_positions size indices access_count) /\
  memory_random_read buffer size indices access_count =
  wrap64 (total ((fun p => at_pos buffer (Z.to_nat p))
                 <$> read_positions size indices access_count)).
Proof.
  intros Hsize. split.
  - unfold read_positions. apply Forall_fmap, Forall_forall.
    intros i _. simpl. apply Z.mod_pos_bound.
    apply Z.div_str_pos. lia.
  - unfold memory_random_read, read_positions.
    change 0%Z with (wrap64 0) at 1. rewrite read_loop_total.
    rewrite <- list_fmap_compose. reflexivity.
Qed.

Lemma random_read_stays_in_bounds_witness :
  Forall (fun p => (0 <= p < 4)%Z)
         (read_positions 32 [7; 1000; 18446744073709551615; 2]%Z 4).
Proof.
  exact (proj1 (random_read_stays_in_bounds buffer_4
                  [7; 1000; 18446744073709551615; 2]%Z 32 4
                  ltac:(lia))).
Defined.

(** X18.  [memory_random_generate_indices] leaves a permutation of the
    slot numbers 0 .. count-1 in the array, for every seed and every
    generator behind [rand()]: each slot number occurs exactly once. *)
Theorem generated_indices_are_permutation (rand_of_seed : Z -> nat -> Z)
    (indices : list Z) (count : nat) (seed : Z) :
  1 <= count -> length indices = count ->
  let generated :=
    memory_random_generate_indices rand_of_seed indices count seed in
  generated ≡ₚ slots count /\
  NoDup generated /\
  length generated = count.
Proof.
  intros Hpos Hlen generated.
  assert (Hperm : generated ≡ₚ slots count)
    by (apply shuffle_indices_perm; assumption).
  split; [exact Hperm|]. split.
  - rewrite Hperm. apply NoDup_fmap_2; [|apply NoDup_seq].
    intros x y. apply Nat2Z.inj.
  - rewrite (Permutation_length Hperm), length_fmap, length_seq. reflexivity.
Qed.

Lemma generated_indices_are_permutation_witness :
  NoDup (memory_random_generate_indices (fun seed k => seed + rand_sample k)%Z
           block_4 4 42).
Proof.
  refine (proj1 (proj2 (generated_indices_are_permutation
            (fun seed k => seed + rand_sample k)%Z block_4 4 42 _ _)));
    [lia | reflexivity].
Defined.

(** X19.  A random read over generated indices, one access per slot,
    reads every slot of the buffer exactly once: it returns the same
    sum as the sequential [memory_stream_read] over the buffer, for
    every seed. *)
Theorem random_read_equals_sequential (rand_of_seed : Z -> nat -> Z)
    (buffer block : list Z) (size seed : Z) :
  let count := Z.to_nat (size / 8) in
  1 <= count -> length buffer = count -> length block = count ->
  memory_random_read buffer size
    (memory_random_generate_indices rand_of_seed block count seed)
    (Z.of_nat count)
  = memory_stream_read buffer size.
Proof.
  intros count Hpos Hbuf Hblock.
  set (indices := memory_random_generate_indices rand_of_seed block count seed).
  assert (Hperm : indices ≡ₚ slots count)
    by (apply shuffle_indices_perm; assumption).
  assert (Hlen : length indices = count).
  { rewrite (Permutation_length Hperm), length_fmap, length_seq.
    reflexivity. }
  rewrite memory_stream_read_total by exact Hbuf.
  unfold memory_random_read. rewrite Nat2Z.id.
  change 0%Z with (wrap64 0) at 1. rewrite read_loop_total.
  f_equal. rewrite Z.add_0_l.
  assert (Hsz : (size / 8 = Z.of_nat count)%Z) by (unfold count; lia).
  transitivity (total ((fun x => at_pos buffer (Z.to_nat x)) <$> indices)).
  - f_equal.
    transitivity ((fun x => at_pos buffer (Z.to_nat x))
                  <$> ((fun n => at_pos indices n) <$> seq 0 count));
      [| rewrite <- Hlen, slots_read; reflexivity].
    rewrite <- list_fmap_compose. apply list_fmap_ext.
    intros i k Hk. simpl. apply lookup_seq in Hk. destruct Hk as [-> Hk].
    f_equal. f_equal. rewrite Hsz. apply Z.mod_small.
    assert (Hin : at_pos indices (0 + i) ∈ indices).
    { apply list_elem_of_lookup. exists (0 + i).
      apply lookup_at_pos. lia. }
    remember (at_pos indices (0 + i)) as x eqn:Hx. clear Hx.
    rewrite Hperm in Hin. apply list_elem_of_fmap in Hin.
    destruct Hin as (n & -> & Hn). apply elem_of_seq in Hn. lia.
  - apply total_perm. rewrite Hperm, <- list_fmap_compose.
    transitivity ((fun n => at_pos buffer n) <$> seq 0 count);
      [| rewrite <- Hbuf, slots_read; reflexivity].
    assert (Heq : (fun x => at_pos buffer (Z.to_nat x)) ∘ Z.of_nat
                  <$> seq 0 count
                  = (fun n => at_pos buffer n) <$> seq 0 count).
    { apply list_fmap_ext. intros i n _. simpl. rewrite Nat2Z.id.
      reflexivity. }
    rewrite Heq. reflexivity.
Qed.

Lemma random_read_equals_sequential_witness :
  memory_random_read [10; 20; 30; 40]%Z 32
    (memory_random_generate_indices (fun seed k => seed + rand_sample k)%Z
       block_4 4 42) 4
  = memory_stream_read [10; 20; 30; 40]%Z 32.
Proof.
  exact (random_read_equals_sequential
           (fun seed k => seed + rand_sample k)%Z [10; 20; 30; 40]%Z block_4
           32 42 ltac:(vm_compute; lia) eq_refl eq_refl).
Defined.

(** *** The ring the chase kernel leaves in the buffer *)

Section Ring.

Variable count : nat.
Variable indices : list Z.
Hypothesis count_pos : 1 <= count.
Hypothesis indices_perm : indices ≡ₚ slots count.

Lemma slot_at_surj (pos : nat) :
  pos < count -> exists k, k < count /\ slot_at indices k = pos.
Proof.
  intros Hpos.
  assert (Hin : Z.of_nat pos ∈ indices).
  { apply (indices_elem count indices count_pos indices_perm). eauto. }
  apply list_elem_of_lookup in Hin. destruct Hin as (k & Hk).
  exists k. split.
  - rewrite <- (indices_length count indices indices_perm).
    eapply lookup_lt_Some. exact Hk.
  - unfold slot_at. rewrite (at_pos_lookup _ _ _ Hk). apply Nat2Z.id.
Qed.

Lemma prepared_lookup (buffer : list Z) (k : nat) :
  length buffer = count -> k < count ->
  build_chain indices buffer count !! slot_at indices k
  = Some (at_pos indices (S k mod count)).
Proof.
  intros Hlen Hk.
  rewrite <- (build_chain_step count indices count_pos indices_perm buffer k)
    by assumption.
  apply lookup_at_pos.
  rewrite (build_chain_length count indices count_pos indices_perm)
    by exact Hlen.
  apply (slot_at_spec count indices count_pos indices_perm). exact Hk.
Qed.

Lemma succ_mod_inj (k k' : nat) :
  k < count -> k' < count -> S k mod count = S k' mod count -> k = k'.
Proof.
  intros Hk Hk'.
  destruct (decide (S k = count)) as [E|E];
    destruct (decide (S k' = count)) as [E'|E'];
    rewrite ?E, ?E', ?Nat.Div0.mod_same;
    rewrite ?(Nat.mod_small (S k)), ?(Nat.mod_small (S k')) by lia; lia.
Qed.

Lemma succ_mod_moves (k : nat) :
  2 <= count -> k < count -> S k mod count <> k.
Proof.
  intros H2 Hk. destruct (decide (S k = count)) as [E|E].
  - rewrite E, Nat.Div0.mod_same. lia.
  - rewrite Nat.mod_small by lia. lia.
Qed.

Lemma indices_lookup_inj (i j : nat) :
  i < count -> j < count -> at_pos indices i = at_pos indices j -> i = j.
Proof.
  intros Hi Hj Heq.
  pose proof (indices_length count indices indices_perm) as Hlen.
  apply (NoDup_lookup indices i j (at_pos indices i)
           (indices_NoDup count indices indices_perm)).
  - apply lookup_at_pos. lia.
  - rewrite Heq. apply lookup_at_pos. lia.
Qed.

Lemma prepared_independent (buffer buffer' : list Z) :
  length buffer = count -> length buffer' = count ->
  build_chain indices buffer count = build_chain indices buffer' count.
Proof.
  intros Hlen Hlen'. apply list_eq. intros pos.
  destruct (decide (pos < count)) as [Hpos|Hpos].
  - destruct (slot_at_surj pos Hpos) as (k & Hk & <-).
    rewrite !prepared_lookup by assumption. reflexivity.
  - rewrite !(proj2 (lookup_ge_None _ _)); [reflexivity | |];
      rewrite (build_chain_length count indices count_pos indices_perm)
        by assumption; lia.
Qed.

Lemma prepared_perm (buffer : list Z) :
  length buffer = count ->
  build_chain indices buffer count ≡ₚ slots count.
Proof.
  intros Hlen. rewrite <- indices_perm.
  pose proof (build_chain_length count indices count_pos indices_perm
                buffer Hlen) as Hbl.
  apply submseteq_length_Permutation.
  - apply NoDup_submseteq.
    + apply NoDup_alt. intros i j x Hi Hj.
      assert (i < count) as Hic
        by (rewrite <- Hbl; eapply lookup_lt_Some; exact Hi).
      assert (j < count) as Hjc
        by (rewrite <- Hbl; eapply lookup_lt_Some; exact Hj).
      destruct (slot_at_surj i Hic) as (k & Hk & <-).
      destruct (slot_at_surj j Hjc) as (k' & Hk' & <-).
      rewrite prepared_lookup in Hi, Hj by assumption.
      assert (k = k'); [|congruence].
      apply succ_mod_inj; try assumption.
      apply indices_lookup_inj;
        [apply Nat.mod_upper_bound; lia | apply Nat.mod_upper_bound; lia
        | congruence].
    + intros x Hx. apply list_elem_of_lookup in Hx. destruct Hx as (i & Hi).
      assert (i < count) as Hic
        by (rewrite <- Hbl; eapply lookup_lt_Some; exact Hi).
      destruct (slot_at_surj i Hic) as (k & Hk & <-).
      rewrite prepared_lookup in Hi by assumption.
      injection Hi as <-. apply list_elem_of_lookup.
      exists (S k mod count). apply lookup_at_pos.
      rewrite (indices_length count indices indices_perm).
      apply Nat.mod_upper_bound. lia.
  - rewrite Hbl, (indices_length count indices indices_perm). lia.
Qed.

Lemma prepared_no_fixed_point (buffer : list Z) (pos : nat) :
  length buffer = count -> 2 <= count -> pos < count ->
  at_pos (build_chain indices buffer count) pos <> Z.of_nat pos.
Proof.
  intros Hlen H2 Hpos. destruct (slot_at_surj pos Hpos) as (k & Hk & <-).
  rewrite (at_pos_lookup _ _ _ (prepared_lookup buffer k Hlen Hk)).
  destruct (slot_at_spec count indices count_pos indices_perm k Hk) as [_ Hl].
  rewrite <- (at_pos_lookup _ _ _ Hl). intros Heq.
  apply indices_lookup_inj in Heq;
    [| apply Nat.mod_upper_bound; lia | exact Hk].
  exact (succ_mod_moves k H2 Hk Heq).
Qed.

Lemma chase_zero_iff (buffer : list Z) (hops : nat) :
  length buffer = count ->
  (0 <= chase_loop hops (build_chain indices buffer count) 0
   < Z.of_nat count)%Z /\
  (chase_loop hops (build_chain indices buffer count) 0 = 0%Z
   <-> hops mod count = 0).
Proof.
  intros Hlen.
  destruct (start_on_ring count indices count_pos indices_perm)
    as (k0 & Hk0 & H0).
  pose proof (chase_loop_spec count indices count_pos indices_perm buffer
                hops k0 Hlen Hk0) as Hc.
  rewrite H0 in Hc. rewrite Hc.
  assert (Hm : (k0 + hops) mod count < count)
    by (apply Nat.mod_upper_bound; lia).
  split.
  - destruct (slot_at_spec count indices count_pos indices_perm _ Hm)
      as [Hs Hl].
    rewrite (at_pos_lookup _ _ _ Hl). lia.
  - split.
    + intros Heq. rewrite <- H0 in Heq.
      apply indices_lookup_inj in Heq; try assumption.
      rewrite Nat.Div0.add_mod in Heq.
      rewrite (Nat.mod_small k0) in Heq by exact Hk0.
      pose proof (Nat.mod_upper_bound hops count ltac:(lia)) as Hr.
      destruct (decide (k0 + hops mod count < count)) as [Hlt|Hge].
      * rewrite Nat.mod_small in Heq by exact Hlt. lia.
      * replace (k0 + hops mod count)
          with ((k0 + hops mod count - count) + 1 * count) in Heq by lia.
        rewrite Nat.Div0.mod_add, Nat.mod_small in Heq by lia. lia.
    + intros Hz. rewrite <- H0. f_equal.
      rewrite Nat.Div0.add_mod, Hz, Nat.add_0_r.
      rewrite Nat.Div0.mod_mod. apply Nat.mod_small. exact Hk0.
Qed.

End Ring.

(** X20.  The buffer the chase kernel prepares depends on the random
    draws only: it is the same whatever the buffer held before, every
    slot holds a slot number and every slot number is held by exactly
    one slot (the links form a permutation), and with two slots or more
    no slot points to itself. *)
Theorem prepared_buffer_is_a_ring (rand_seq : nat -> Z)
    (block buffer buffer' : list Z) (size iterations : Z) :
  let N := Z.to_nat (size / 8) in
  1 <= N -> length block = N -> length buffer = N -> length buffer' = N ->
  let prepared b :=
    chase_buffer (memory_random_chase rand_seq (Some block) b size iterations)
  in
  prepared buffer = prepared buffer' /\
  prepared buffer ≡ₚ slots N /\
  (2 <= N -> forall pos, pos < N ->
     at_pos (prepared buffer) pos <> Z.of_nat pos).
Proof.
  intros N Hpos Hblock Hbuf Hbuf' prepared.
  pose proof (shuffle_indices_perm rand_seq block N Hpos Hblock) as Hperm.
  unfold prepared, memory_random_chase. cbn [chase_buffer]. fold N.
  split; [|split].
  - apply (prepared_independent N _ Hpos Hperm); assumption.
  - apply (prepared_perm N _ Hpos Hperm); assumption.
  - intros H2 pos Hp.
    apply (prepared_no_fixed_point N _ Hpos Hperm); assumption.
Qed.

Lemma prepared_buffer_is_a_ring_witness :
  chase_buffer (memory_random_chase rand_sample (Some block_4) buffer_4 32 4)
  = chase_buffer
      (memory_random_chase rand_sample (Some block_4) [1; 2; 3; 4]%Z 32 4).
Proof.
  exact (proj1 (prepared_buffer_is_a_ring rand_sample block_4 buffer_4
                  [1; 2; 3; 4]%Z 32 4 ltac:(vm_compute; lia)
                  eq_refl eq_refl eq_refl)).
Defined.

(** X21.  When the allocation succeeds, the value the chase kernel
    returns is a slot number below N, and it is 0 exactly when the
    iteration count is a multiple of N: after a whole number of turns
    the chase is back at its start. *)
Theorem chase_returns_to_start (rand_seq : nat -> Z)
    (block buffer : list Z) (size iterations : Z) :
  let N := Z.to_nat (size / 8) in
  1 <= N -> length block = N -> length buffer = N ->
  (0 <= iterations)%Z ->
  let ret :=
    chase_ret
      (memory_random_chase rand_seq (Some block) buffer size iterations) in
  (0 <= ret < Z.of_nat N)%Z /\
  (ret = 0%Z <-> (iterations mod Z.of_nat N = 0)%Z).
Proof.
  intros N Hpos Hblock Hbuf Hit ret.
  pose proof (shuffle_indices_perm rand_seq block N Hpos Hblock) as Hperm.
  unfold ret, memory_random_chase. cbn [chase_ret]. fold N.
  destruct (chase_zero_iff N _ Hpos Hperm buffer (Z.to_nat iterations) Hbuf)
    as [Hr Hz].
  split; [exact Hr|]. rewrite Hz.
  rewrite <- (Z2Nat.id iterations) at 2 by exact Hit.
  rewrite <- Nat2Z.inj_mod. lia.
Qed.

Lemma chase_returns_to_start_witness :
  chase_ret (memory_random_chase rand_sample (Some block_4) buffer_4 32 8)
  = 0%Z.
Proof.
  apply (proj2 (chase_returns_to_start rand_sample block_4 buffer_4 32 8
                  ltac:(vm_compute; lia) eq_refl eq_refl ltac:(lia))).
  reflexivity.
Defined.

End MemoryReadFacts.

(** ** Theorems: memory_stream.c *)

Module MemoryStreamFacts.
Import MemoryRandom MemoryStream MemoryRandomFacts MemoryReadFacts Samples.

Local Open Scope nat_scope.

Lemma write_loop_spec (todo : nat) : forall i buffer,
  i + todo <= length buffer ->
  write_loop todo i buffer =
  take i buffer ++ (Z.of_nat <$> seq i todo) ++ drop (i + todo) buffer.
Proof.
  induction todo as [|todo IH]; intros i buffer Hlen.
  - simpl. rewrite Nat.add_0_r, take_drop. reflexivity.
  - cbn [write_loop]. rewrite IH by (rewrite length_insert; lia).
    rewrite (take_S_r _ _ (Z.of_nat i))
      by (apply list_lookup_insert_eq; lia).
    rewrite take_insert_ge by lia.
    rewrite drop_insert_lt by lia.
    rewrite <- app_assoc. cbn [seq fmap list_fmap app].
    replace (S i + todo) with (i + S todo) by lia. reflexivity.
Qed.


Lemma total_slots (n : nat) : forall i,
  (2 * total (Z.of_nat <$> seq i n)
   = Z.of_nat n * (2 * Z.of_nat i + Z.of_nat n - 1))%Z.
Proof.
  induction n as [|n IH]; intros i; [reflexivity|].
  cbn [seq fmap list_fmap]. unfold total in *. cbn [foldr].
  specialize (IH (S i)). lia.
Qed.

Lemma read_prefix (a b : list Z) (size : Z) :
  (forall n, n < Z.to_nat (size / 8) -> at_pos a n = at_pos b n) ->
  memory_stream_read a size = memory_stream_read b size.
Proof.
  intros Heq. unfold memory_stream_read.
  change 0%Z with (wrap64 0). rewrite !sum_loop_total.
  f_equal. f_equal. f_equal. apply list_fmap_ext.
  intros i n Hn. apply lookup_seq in Hn. apply Heq. lia.
Qed.

Lemma at_pos_app_l (a b : list Z) (n : nat) :
  n < length a -> at_pos (a ++ b) n = at_pos a n.
Proof. intros H. unfold at_pos. rewrite lookup_app_l by exact H. reflexivity. Qed.

(** X22.  [memory_stream_write] stores each slot's own number in the
    first count slots and leaves the rest of the buffer alone; a
    sequential read of what it wrote returns count * (count - 1) / 2
    modulo 2^64. *)
Theorem write_then_read (buffer : list Z) (size : Z) :
  let count := Z.to_nat (size / 8) in
  count <= length buffer ->
  memory_stream_write buffer size = slots count ++ drop count buffer /\
  memory_stream_read (memory_stream_write buffer size) size
  = wrap64 (Z.of_nat count * (Z.of_nat count - 1) / 2).
Proof.
  intros count Hlen.
  assert (Hw : memory_stream_write buffer size
               = slots count ++ drop count buffer).
  { unfold memory_stream_write. fold count.
    rewrite write_loop_spec by lia. rewrite take_0. reflexivity. }
  split; [exact Hw|].
  rewrite (read_prefix _ (slots count)).
  - rewrite memory_stream_read_total
      by (rewrite length_fmap, length_seq; reflexivity).
    f_equal. pose proof (total_slots count 0) as Ht.
    apply Z.div_unique_exact; [lia|]. simpl Z.of_nat in Ht. lia.
  - intros n Hn. rewrite Hw. apply at_pos_app_l.
    rewrite length_fmap, length_seq. exact Hn.
Qed.

Lemma write_then_read_witness :
  memory_stream_read (memory_stream_write buffer_4 32) 32 = 6%Z.
Proof.
  exact (proj2 (write_then_read buffer_4 32 ltac:(vm_compute; lia))).
Defined.



(** *** Strided read *)

Local Open Scope Z_scope.






End MemoryStreamFacts.

(** ** Theorems: elapsed time of a lock test; phases of the CPU spin *)

Module ElapsedFacts.
Import Metrics ProcFormat LockContention CpuSpin Samples.

(** X25.  For two normalised clock readings of which the first is not
    later than the second, the elapsed time [run_lock_test] returns is
    the exact number of nanoseconds between them, also when the
    nanosecond part of the end reading is smaller than that of the
    start reading; it equals the difference of the timestamps that
    [get_timestamp_ns] computes from the same readings. *)
Theorem elapsed_is_exact (start finish : timespec) (rc rc' : Z) :
  normal_time start -> normal_time finish ->
  0 <= ns_between start finish ->
  elapsed_ns start finish = ns_between start finish /\
  elapsed_ns start finish =
    get_timestamp_ns {| clock_rc := rc'; clock_ts := finish |}
    - get_timestamp_ns {| clock_rc := rc; clock_ts := start |}.
Proof.
  intros (Hs1 & Hs2 & Hs3) (Hf1 & Hf2 & Hf3) Hpos.
  unfold ns_between in *.
  assert (He : elapsed_ns start finish =
               (tv_sec finish - tv_sec start) * 1000000000
               + (tv_nsec finish - tv_nsec start)).
  { unfold elapsed_ns, wrap64, two64.
    rewrite Zmult_mod_idemp_l, <- Zplus_mod.
    apply Z.mod_small. unfold two64 in *. lia. }
  split; [exact He|].
  rewrite He, !MetricsFacts.get_timestamp_ns_value. cbn [clock_ts].
  rewrite !wrap64_small by lia. lia.
Qed.

Lemma elapsed_is_exact_witness :
  elapsed_ns {| tv_sec := 7; tv_nsec := 999999000 |}
             {| tv_sec := 9; tv_nsec := 500 |} = 1000001500.
Proof.
  exact (proj1 (elapsed_is_exact {| tv_sec := 7; tv_nsec := 999999000 |}
                  {| tv_sec := 9; tv_nsec := 500 |} 0 0
                  ltac:(vm_compute; repeat split; congruence)
                  ltac:(vm_compute; repeat split; congruence)
                  ltac:(vm_compute; congruence))).
Defined.

Lemma phase_loop_last (phases : nat) (iterations : Z) : forall result,
  phase_loop (S phases) iterations result =
  spin_loop (Z.to_nat iterations) 0 (phase_loop phases iterations result).
Proof.
  induction phases as [|phases IH]; intros result; [reflexivity|].
  change (phase_loop (S (S phases)) iterations result)
    with (phase_loop (S phases) iterations
            (spin_loop (Z.to_nat iterations) 0 result)).
  rewrite IH. reflexivity.
Qed.

Lemma phase_loop_range (phases : nat) (iterations : Z) : forall result,
  0 <= result < two64 -> 0 <= phase_loop phases iterations result < two64.
Proof.
  induction phases as [|phases IH]; intros result Hr; cbn [phase_loop].
  - exact Hr.
  - apply IH. apply CpuSpinFacts.spin_loop_range. exact Hr.
Qed.

Lemma phase_loop_idle (phases : nat) (iterations : Z) : forall result,
  iterations <= 0 -> phase_loop phases iterations result = result.
Proof.
  induction phases as [|phases IH]; intros result Hi; cbn [phase_loop].
  - reflexivity.
  - rewrite IH by exact Hi.
    replace (Z.to_nat iterations) with O by lia. reflexivity.
Qed.

(** X26.  Each further phase of [cpu_spin_long] runs the loop of
    [cpu_spin] once more, seeded with the result so far; the result
    always fits 64 bits, and with zero iterations it is 0 for every
    number of phases. *)
Theorem phases_compose (iterations phases : Z) :
  0 <= phases ->
  cpu_spin_long iterations (phases + 1) =
    spin_loop (Z.to_nat iterations) 0 (cpu_spin_long iterations phases) /\
  0 <= cpu_spin_long iterations phases < two64 /\
  cpu_spin_long 0 phases = 0.
Proof.
  intros Hp. unfold cpu_spin_long. split; [|split].
  - replace (Z.to_nat (phases + 1)) with (S (Z.to_nat phases)) by lia.
    apply phase_loop_last.
  - apply phase_loop_range. unfold two64. lia.
  - apply phase_loop_idle. lia.
Qed.

Lemma phases_compose_witness :
  cpu_spin_long 3 2 = spin_loop 3 0 (cpu_spin_long 3 1).
Proof.
  exact (proj1 (phases_compose 3 1 ltac:(lia))).
Defined.

End ElapsedFacts.
